(** * BOSH server session: a shallow embedding of [lib/bosh/session.js]

    The session object of the JavaScript source is embedded as a record,
    its methods as computations in a small state monad over that record.
    The parts of the Node.js run time the methods talk to are part of the
    state as well: the table of pending timers ([setTimeout] and
    [clearTimeout]), the queue of [process.nextTick] callbacks, and the
    trace of everything the session lets out (events emitted on the
    session, responses written to HTTP response objects).

    Conventions.
    - A JavaScript number is [number := option Z]: [None] is [NaN], and
      [Some z] an integer.  The embedding is exact for integers in the
      safe range of doubles (below [2^53] in absolute value), which is
      where request ids live: a theorem that says what [nextRid] is
      after [++], or that reads a request id as a number to tell which
      request is taken, is stated for [isSafeInteger] numbers.
    - An attribute that may be missing is an [option string]; [None] is
      [undefined].
    - A request object ([opts] in the source) is shared between the
      queues and the closure of its timer.  Its only mutable property is
      [timer]; the embedding keeps the immutable properties in the
      record [Opts], together with the identity [oid] of the object, and
      the [timer] properties of all objects in the map [optsTimer] of
      the state, indexed by identity.
    - [inQueue] is a map from property keys to requests: the keys an
      object takes from its prototype, and [__proto__], are not keys a
      request id is expected to be, and are outside the model.  A
      theorem about every request a session may be handed says so in a
      hypothesis ([plain_rid], [plain_world]).
    - [debug] and [console] output, the constant properties [writable]
      and [readable], and [serializeStanza], which does not touch the
      session, are not part of the model. *)

From Stdlib Require Import ZArith String Ascii List Lia.
From Stdlib Require Import DecimalString DecimalZ DecimalPos.
From stdpp Require Import gmap strings list fin_maps.

Local Open Scope Z_scope.

(** ** JavaScript values *)

Definition number := option Z.

Definition NaN : number := None.

(** [a < b] on numbers: false as soon as one side is [NaN]. *)
Definition js_lt (a b : number) : bool :=
  match a, b with
  | Some x, Some y => x <? y
  | _, _ => false
  end.

(** [n++] *)
Definition js_incr (n : number) : number := Z.succ <$> n.

(** [Number.isSafeInteger(z)]: the integers a double holds exactly, as
    it does their successors. On these [n++], [String(n)] and
    [parseInt] of the digits of [n] are exact. *)
Definition isSafeInteger (z : Z) : bool := Z.abs z <=? 2 ^ 53 - 1.

Definition js_mul (a b : number) : number :=
  match a, b with
  | Some x, Some y => Some (x * y)
  | _, _ => None
  end.

(** [String(z)] for an integer: decimal digits, with a minus sign for a
    negative one. *)
Definition numToString (z : Z) : string :=
  NilZero.string_of_int (Z.to_int z).

(** The property key a number is turned into, as in
    [this.inQueue.hasOwnProperty(this.nextRid)]. *)
Definition number_key (n : number) : string :=
  match n with
  | Some z => numToString z
  | None => "NaN"
  end.

(** The property key of an attribute value, as in
    [this.inQueue[opts.bodyEl.attrs.rid]]. *)
Definition attr_key (a : option string) : string :=
  default "undefined" a.

(** Truthiness of an attribute value: defined and not empty. *)
Definition truthy (a : option string) : bool :=
  match a with
  | Some s => negb (String.eqb s "")
  | None => false
  end.

(** [a || d] on attribute values. *)
Definition js_or (a : option string) (d : string) : string :=
  match a with
  | Some s => if String.eqb s "" then d else s
  | None => d
  end.

(** *** [parseInt(s, 10)] *)

Definition is_white (c : ascii) : bool :=
  let n := nat_of_ascii c in
  (Nat.eqb n 9 || Nat.eqb n 10 || Nat.eqb n 11 || Nat.eqb n 12
   || Nat.eqb n 13 || Nat.eqb n 32)%bool.

Fixpoint skip_white (s : string) : string :=
  match s with
  | String c s' => if is_white c then skip_white s' else s
  | EmptyString => s
  end.

(** The longest prefix of decimal digits, as a [Decimal.uint]. *)
Fixpoint digit_prefix (s : string) : Decimal.uint :=
  match s with
  | String c s' =>
      match uint_of_char c (Some (digit_prefix s')) with
      | Some d => d
      | None => Decimal.Nil
      end
  | EmptyString => Decimal.Nil
  end.

Definition parse_digits (s : string) : number :=
  match digit_prefix s with
  | Decimal.Nil => NaN
  | d => Some (Z.of_uint d)
  end.

Definition parseInt_string (s : string) : number :=
  match skip_white s with
  | String "-" s' => Z.opp <$> parse_digits s'
  | String "+" s' => parse_digits s'
  | s' => parse_digits s'
  end.

(** [parseInt(a, 10)] of an attribute value; [undefined] is first turned
    into the string ["undefined"], which has no digits. *)
Definition parseInt (a : option string) : number :=
  parseInt_string (attr_key a).

(** [parseInt(n, 10)] of a number: the number is printed and read
    again. *)
Definition parseInt_number (n : number) : number :=
  parseInt_string (number_key n).

(** ** The XML library

    [ltx] is a library the session calls, as are the elements it makes.
    The session needs two things of it: [ltx.parse(s)], which gives an
    element or throws ([None]), and, for a child [stanza] of a request
    body, the string [stanza.root().children.toString()]. *)

Class Ltx := {
  Element : Type;
  ltx_parse : string -> option Element;
  root_children_toString : Element -> string
}.

Section Model.
Context `{Ltx}.

(** ** Requests *)

(** The attributes of a [<body/>] element the session reads. *)
Record Attrs := {
  attr_rid : option string;
  attr_sid : option string;
  attr_to : option string;
  attr_restart : option string;   (* xmpp:restart *)
  attr_version : option string;   (* xmpp:version *)
  attr_type : option string;
  attr_wait : option string;
  attr_hold : option string
}.

Record BodyEl := {
  attrs : Attrs;
  children : list Element
}.

(** The object handed to the constructor and to [handleHTTP]: the parsed
    body and the HTTP response object, named by [res].  The constructor
    reads three more properties, which a later request does not carry.
    [oid] is the identity of the object. *)
Record Opts := {
  oid : nat;
  bodyEl : BodyEl;
  res : nat;
  xmlns : option (list (string * string));
  opt_streamAttrs : option (list (string * string));
  opt_sid : option string
}.

(** ** What the session lets out *)

Inductive Event :=
  | EvConnect
  | EvData (data : string)
  | EvDrain
  | EvError (message : string)
  | EvEnd
  | EvClose.

Inductive Body :=
  | XmlBody (battrs : gmap string string) (bchildren : list Element)
  | TextBody (text : string).

(** A completed HTTP response: [writeHead], the body, [end]. *)
Record Response := {
  status : Z;
  contentType : string;
  body : Body
}.

Inductive Output :=
  | Emit (e : Event)
  | Write (r : nat) (resp : Response).

(** ** The run time *)

Inductive Callback :=
  | ReqTimer (opts : Opts)   (* the closure set up in [handleHTTP] *)
  | ConnTimer.               (* the closure of [maySetConnectionTimeout] *)

Record Timer := {
  delay : number;
  callback : Callback
}.

Inductive Tick :=
  | TickWorkInQueue          (* this.workInQueue.bind(this) *)
  | TickWorkOutQueue         (* this.workOutQueue.bind(this) *)
  | TickRespond.             (* workOutQueue, then workInQueue *)

(** ** The session object *)

Record Session := {
  xmlnsAttrs : gmap string string;
  streamAttrs : list (string * string);
  handshakeAttrs : Attrs;
  sid : string;
  nextRid : number;
  wait : number;
  hold : number;
  inQueue : gmap string Opts;
  outQueue : list Opts;
  stanzaQueue : list string;
  connectionTimeout : option nat
}.

Record World := {
  this : Session;
  optsTimer : gmap nat nat;      (* [opts.timer], by object identity *)
  timers : gmap nat Timer;       (* pending timers, by handle *)
  nextHandle : nat;              (* the next handle [setTimeout] gives *)
  ticks : list Tick;             (* pending [process.nextTick] callbacks *)
  trace : list Output
}.

(** Assignments to the properties that change. *)

Definition set_nextRid (v : number) (s : Session) : Session :=
  {| xmlnsAttrs := xmlnsAttrs s;
     streamAttrs := streamAttrs s;
     handshakeAttrs := handshakeAttrs s;
     sid := sid s;
     nextRid := v;
     wait := wait s;
     hold := hold s;
     inQueue := inQueue s;
     outQueue := outQueue s;
     stanzaQueue := stanzaQueue s;
     connectionTimeout := connectionTimeout s |}.

Definition set_inQueue (v : gmap string Opts) (s : Session) : Session :=
  {| xmlnsAttrs := xmlnsAttrs s;
     streamAttrs := streamAttrs s;
     handshakeAttrs := handshakeAttrs s;
     sid := sid s;
     nextRid := nextRid s;
     wait := wait s;
     hold := hold s;
     inQueue := v;
     outQueue := outQueue s;
     stanzaQueue := stanzaQueue s;
     connectionTimeout := connectionTimeout s |}.

Definition set_outQueue (v : list Opts) (s : Session) : Session :=
  {| xmlnsAttrs := xmlnsAttrs s;
     streamAttrs := streamAttrs s;
     handshakeAttrs := handshakeAttrs s;
     sid := sid s;
     nextRid := nextRid s;
     wait := wait s;
     hold := hold s;
     inQueue := inQueue s;
     outQueue := v;
     stanzaQueue := stanzaQueue s;
     connectionTimeout := connectionTimeout s |}.

Definition set_stanzaQueue (v : list string) (s : Session) : Session :=
  {| xmlnsAttrs := xmlnsAttrs s;
     streamAttrs := streamAttrs s;
     handshakeAttrs := handshakeAttrs s;
     sid := sid s;
     nextRid := nextRid s;
     wait := wait s;
     hold := hold s;
     inQueue := inQueue s;
     outQueue := outQueue s;
     stanzaQueue := v;
     connectionTimeout := connectionTimeout s |}.

Definition set_connectionTimeout (v : option nat) (s : Session) : Session :=
  {| xmlnsAttrs := xmlnsAttrs s;
     streamAttrs := streamAttrs s;
     handshakeAttrs := handshakeAttrs s;
     sid := sid s;
     nextRid := nextRid s;
     wait := wait s;
     hold := hold s;
     inQueue := inQueue s;
     outQueue := outQueue s;
     stanzaQueue := stanzaQueue s;
     connectionTimeout := v |}.

Definition set_this (v : Session) (w : World) : World :=
  {| this := v;
     optsTimer := optsTimer w;
     timers := timers w;
     nextHandle := nextHandle w;
     ticks := ticks w;
     trace := trace w |}.

Definition set_optsTimer (v : gmap nat nat) (w : World) : World :=
  {| this := this w;
     optsTimer := v;
     timers := timers w;
     nextHandle := nextHandle w;
     ticks := ticks w;
     trace := trace w |}.

Definition set_timers (v : gmap nat Timer) (w : World) : World :=
  {| this := this w;
     optsTimer := optsTimer w;
     timers := v;
     nextHandle := nextHandle w;
     ticks := ticks w;
     trace := trace w |}.

Definition set_nextHandle (v : nat) (w : World) : World :=
  {| this := this w;
     optsTimer := optsTimer w;
     timers := timers w;
     nextHandle := v;
     ticks := ticks w;
     trace := trace w |}.

Definition set_ticks (v : list Tick) (w : World) : World :=
  {| this := this w;
     optsTimer := optsTimer w;
     timers := timers w;
     nextHandle := nextHandle w;
     ticks := v;
     trace := trace w |}.

Definition set_trace (v : list Output) (w : World) : World :=
  {| this := this w;
     optsTimer := optsTimer w;
     timers := timers w;
     nextHandle := nextHandle w;
     ticks := ticks w;
     trace := v |}.

(** ** The monad of the methods *)

Definition M (A : Type) : Type := World -> A * World.

Definition ret {A} (a : A) : M A := fun w => (a, w).

Definition bind {A B} (m : M A) (k : A -> M B) : M B :=
  fun w => let (a, w') := m w in k a w'.

Notation "'do' x <- m ; k" := (bind m (fun x => k))
  (at level 10, x name, m at level 100, k at level 200,
   format "'[v' 'do'  x  <-  m ; '/' k ']'").
Notation "m >> k" := (bind m (fun _ => k))
  (at level 100, k at level 200, right associativity).

Definition get {A} (f : World -> A) : M A := fun w => (f w, w).
Definition modify (f : World -> World) : M unit := fun w => (tt, f w).
Definition modify_this (f : Session -> Session) : M unit :=
  modify (fun w => set_this (f (this w)) w).

Fixpoint forEach {A} (l : list A) (f : A -> M unit) : M unit :=
  match l with
  | [] => ret tt
  | x :: l' => f x >> forEach l' f
  end.

(** The final state and the result of a method call. *)
Definition exec {A} (m : M A) (w : World) : World := snd (m w).
Definition eval {A} (m : M A) (w : World) : A := fst (m w).

(** *** Run-time primitives *)

(** [this.emit(...)] *)
Definition emit (e : Event) : M unit :=
  modify (fun w => set_trace (trace w ++ [Emit e]) w).

(** [res.writeHead(...)], the body, [res.end()] *)
Definition writeResponse (r : nat) (resp : Response) : M unit :=
  modify (fun w => set_trace (trace w ++ [Write r resp]) w).

Definition setTimeout (cb : Callback) (ms : number) : M nat :=
  fun w =>
    let h := nextHandle w in
    (h, set_nextHandle (S h)
          (set_timers (<[h := {| delay := ms; callback := cb |}]> (timers w)) w)).

Definition clearTimeout (h : nat) : M unit :=
  modify (fun w => set_timers (delete h (timers w)) w).

Definition nextTick (t : Tick) : M unit :=
  modify (fun w => set_ticks (ticks w ++ [t]) w).

(** Reading, setting and deleting [opts.timer]. *)
Definition get_timer (opts : Opts) : M (option nat) :=
  get (fun w => optsTimer w !! oid opts).

Definition set_timer (opts : Opts) (h : nat) : M unit :=
  modify (fun w => set_optsTimer (<[oid opts := h]> (optsTimer w)) w).

Definition delete_timer (opts : Opts) : M unit :=
  modify (fun w => set_optsTimer (delete (oid opts) (optsTimer w)) w).

(** ** The methods of [BOSHServerSession] *)

Definition NS_HTTPBIND : string := "http://jabber.org/protocol/httpbind".

Definition maySetConnectionTimeout : M unit :=
  do q <- get (fun w => outQueue (this w));
  if (length q <? 1)%nat then
    do h <- setTimeout ConnTimer (js_mul (Some 60) (Some 1000));
    modify_this (set_connectionTimeout (Some h))
  else ret tt.

(** The loop over [opts.xmlns] of the constructor. *)
Definition add_xmlns (m : gmap string string) (p : string * string)
  : gmap string string :=
  if truthy (Some (fst p)) then <[("xmlns:" +:+ fst p) := snd p]> m
  else <["xmlns" := snd p]> m.

Definition init_xmlnsAttrs (opts : Opts) (the_sid : string)
  : gmap string string :=
  let base : gmap string string :=
    <["xmlns:stream" := "http://etherx.jabber.org/streams"]>
      (<["xmlns:xmpp" := "urn:xmpp:xbosh"]>
         (<["xmlns" := NS_HTTPBIND]> ∅)) in
  <["sid" := the_sid]> (fold_left add_xmlns (default [] (xmlns opts)) base).

(** The session object when the constructor has made its assignments,
    before it calls a method.  [hat] is the string [hat()] gives. *)
Definition init_session (opts : Opts) (hat : string) : Session :=
  let the_sid := js_or (opt_sid opts) hat in
  {| xmlnsAttrs := init_xmlnsAttrs opts the_sid;
     streamAttrs := default [] (opt_streamAttrs opts);
     handshakeAttrs := attrs (bodyEl opts);
     sid := the_sid;
     nextRid := parseInt (attr_rid (attrs (bodyEl opts)));
     wait := parseInt_string (js_or (attr_wait (attrs (bodyEl opts))) "30");
     hold := parseInt_string (js_or (attr_hold (attrs (bodyEl opts))) "1");
     inQueue := ∅;
     outQueue := [];
     stanzaQueue := [];
     connectionTimeout := None |}.

Definition init_world (opts : Opts) (hat : string) : World :=
  {| this := init_session opts hat;
     optsTimer := ∅;
     timers := ∅;
     nextHandle := 0%nat;
     ticks := [];
     trace := [] |}.

(** [new BOSHServerSession(opts)], in a run time with no timer and no
    callback pending. *)
Definition BOSHServerSession (opts : Opts) (hat : string) : World :=
  exec
    (maySetConnectionTimeout >>
     emit EvConnect >>
     modify_this (fun s =>
       set_inQueue (<[attr_key (attr_rid (attrs (bodyEl opts))) := opts]>
                      (inQueue s)) s) >>
     nextTick TickWorkInQueue)
    (init_world opts hat).

Definition write (data : string) : M bool :=
  modify_this (fun s => set_stanzaQueue (stanzaQueue s ++ [data]) s) >>
  nextTick TickWorkOutQueue >>
  do q <- get (fun w => outQueue (this w));
  ret (0 <? length q)%nat.

Definition pause : M unit := ret tt.
Definition resume : M unit := ret tt.
Definition end_ : M unit := ret tt.

Definition sendData (data : string) : M unit :=
  emit (EvData data).

Definition closeSocket : M unit :=
  emit EvEnd >> emit EvClose.

Definition respond (r : nat) (attrs : gmap string string)
    (children : option (list string)) : M unit :=
  do xa <- get (fun w => xmlnsAttrs (this w));
  writeResponse r
    {| status := 200;
       contentType := "application/xml; charset=utf-8";
       body := XmlBody (xa ∪ attrs)
                 (match children with
                  | Some l => omap ltx_parse l
                  | None => []
                  end) |}.

Definition conflict_response : Response :=
  {| status := 403;
     contentType := "text/plain";
     body := TextBody "Request replaced by same RID" |}.

(** The part of [handleHTTP] after its first conditional, which the
    branch of a request already processed leaves out by [return]. *)
Definition handleHTTP_queue (opts : Opts) : M unit :=
  let rid := attr_rid (attrs (bodyEl opts)) in
  do ct <- get (fun w => connectionTimeout (this w));
  match ct with
  | Some h =>
      clearTimeout h >> modify_this (set_connectionTimeout None)
  | None => ret tt
  end >>
  (* Set up timeout: *)
  do secs <- get (fun w => wait (this w));
  do h <- setTimeout (ReqTimer opts) (js_mul secs (Some 1000));
  set_timer opts h >>
  (* Process... *)
  modify_this (fun s => set_inQueue (<[attr_key rid := opts]> (inQueue s)) s) >>
  nextTick TickWorkInQueue.

Definition handleHTTP (opts : Opts) : M unit :=
  let rid := attr_rid (attrs (bodyEl opts)) in
  do q <- get (fun w => inQueue (this w));
  do nr <- get (fun w => nextRid (this w));
  match q !! attr_key rid with
  | Some oldOpts =>
      (* Already queued? Replace with this request *)
      writeResponse (res oldOpts) conflict_response >>
      handleHTTP_queue opts
  | None =>
      if js_lt (parseInt rid) (parseInt_number nr) then
        (* This req has already been processed. *)
        modify_this (fun s => set_outQueue (outQueue s ++ [opts]) s)
      else handleHTTP_queue opts
  end.

(** The strings [workInQueue] sends for a request, in the order it
    sends them: the stream start, the stream reset, the children. *)
Definition stream_start (a : Attrs) : list string :=
  if (negb (truthy (attr_restart a)) && truthy (attr_rid a)
      && negb (truthy (attr_sid a)))%bool
  then [ "<?xml version='1.0' ?>";
         "<stream:stream xmlns='jabber:client' xmlns:stream='http://etherx.jabber.org/streams' to='"
           +:+ attr_key (attr_to a) +:+ "' version='"
           +:+ attr_key (attr_version a) +:+ "'>" ]
  else [].

Definition stream_reset (a : Attrs) : list string :=
  if bool_decide (attr_restart a = Some "true")
  then [ "<stream:stream xmlns='jabber:client' xmlns:stream='http://etherx.jabber.org/streams'  to='"
           +:+ attr_key (attr_to a) +:+ "' version='"
           +:+ attr_key (attr_version a) +:+ "'>" ]
  else [].

Definition request_data (opts : Opts) : list string :=
  stream_start (attrs (bodyEl opts)) ++ stream_reset (attrs (bodyEl opts))
  ++ map root_children_toString (children (bodyEl opts)).

Definition terminate_attrs : gmap string string :=
  {[ "type" := "terminate" ]}.

(** The body of the loop of [workInQueue] over [outQueue] when the
    session is terminated. *)
Definition terminate_held (opts : Opts) : M unit :=
  do t <- get_timer opts;
  match t with
  | Some h => clearTimeout h
  | None => ret tt
  end >>
  respond (res opts) terminate_attrs (Some []).

Definition workInQueue : M unit :=
  do nr <- get (fun w => nextRid (this w));
  do q <- get (fun w => inQueue (this w));
  match q !! number_key nr with
  | None =>
      (* Still waiting for next rid request *)
      ret tt
  | Some opts =>
      modify_this (fun s => set_inQueue (delete (number_key nr) (inQueue s)) s) >>
      modify_this (fun s => set_nextRid (js_incr (nextRid s)) s) >>
      (* handle stream start *)
      forEach (stream_start (attrs (bodyEl opts))) sendData >>
      (* handle stream reset *)
      forEach (stream_reset (attrs (bodyEl opts))) sendData >>
      forEach (children (bodyEl opts))
        (fun stanza => sendData (root_children_toString stanza)) >>
      (* Input process, retain response for sending stanzas *)
      modify_this (fun s => set_outQueue (outQueue s ++ [opts]) s) >>
      if negb (bool_decide (attr_type (attrs (bodyEl opts)) = Some "terminate"))
      then nextTick TickRespond
      else
        do oq <- get (fun w => outQueue (this w));
        forEach oq terminate_held >>
        modify_this (set_outQueue []) >>
        closeSocket
  end.

Definition workOutQueue : M unit :=
  do sq <- get (fun w => stanzaQueue (this w));
  do oq <- get (fun w => outQueue (this w));
  if ((length sq <? 1)%nat && (0 <? length oq)%nat)%bool then
    emit EvDrain
  else
    match oq with
    | [] => ret tt
    | opts :: oq' =>
        (* queued stanzas *)
        let stanzas := sq in
        modify_this (set_stanzaQueue []) >>
        (* available requests *)
        modify_this (set_outQueue oq') >>
        do t <- get_timer opts;
        match t with
        | Some h => clearTimeout h >> delete_timer opts
        | None => ret tt
        end >>
        (* answer *)
        respond (res opts) ∅ (Some stanzas) >>
        maySetConnectionTimeout
    end.

(** The index the loop of [onReqTimeout] stops at. *)
Fixpoint find_rid (rid : option string) (q : list Opts) : nat :=
  match q with
  | [] => 0%nat
  | o :: q' =>
      if bool_decide (attr_rid (attrs (bodyEl o)) = rid) then 0%nat
      else S (find_rid rid q')
  end.

Definition onReqTimeout (rid : option string) : M unit :=
  do q <- get (fun w => inQueue (this w));
  match q !! attr_key rid with
  | Some opts =>
      modify_this (fun s => set_inQueue (delete (attr_key rid) (inQueue s)) s) >>
      respond (res opts) ∅ None
  | None =>
      do oq <- get (fun w => outQueue (this w));
      let i := find_rid rid oq in
      match oq !! i with
      | Some opts =>
          modify_this (set_outQueue (take i oq ++ drop (S i) oq)) >>
          respond (res opts) ∅ None
      | None =>
          (* Spurious timeout *)
          ret tt
      end
  end.

(** ** The event loop *)

(** What a timer does when it goes off. *)
Definition run_callback (cb : Callback) : M unit :=
  match cb with
  | ReqTimer opts =>
      delete_timer opts >>
      onReqTimeout (attr_rid (attrs (bodyEl opts)))
  | ConnTimer =>
      emit (EvError "Session timeout") >>
      emit EvClose
  end.

(** The timer with handle [h] goes off, when it is pending. *)
Definition fire (h : nat) : M unit :=
  do ts <- get timers;
  match ts !! h with
  | Some t => clearTimeout h >> run_callback (callback t)
  | None => ret tt
  end.

Definition run_tick (t : Tick) : M unit :=
  match t with
  | TickWorkInQueue => workInQueue
  | TickWorkOutQueue => workOutQueue
  | TickRespond => workOutQueue >> workInQueue
  end.

(** One callback of the [nextTick] queue, the oldest. *)
Definition tick_step (w : World) : option World :=
  match ticks w with
  | [] => None
  | t :: ts => Some (exec (run_tick t) (set_ticks ts w))
  end.

Fixpoint run_ticks (fuel : nat) (w : World) : World :=
  match fuel with
  | O => w
  | S fuel' =>
      match tick_step w with
      | Some w' => run_ticks fuel' w'
      | None => w
      end
  end.

(** A bound on the number of callbacks the queue runs before it is
    empty: one callback leaves the queue at each step, and a callback
    comes in only as a request leaves [inQueue]. *)
Definition tick_bound (w : World) : nat :=
  (length (ticks w) + size (inQueue (this w)))%nat.

(** Node runs the [nextTick] queue to its end when a call from outside
    is over. *)
Definition settle (w : World) : World :=
  run_ticks (tick_bound w) w.

(** A call from outside and the callbacks it leaves. *)
Definition call {A} (m : M A) (w : World) : World :=
  settle (exec m w).

End Model.

(** ** Reading a trace *)

Section Traces.
Context `{Ltx}.

(** The events the session emitted, in order. *)
Definition events (tr : list Output) : list Event :=
  omap (fun o => match o with Emit e => Some e | Write _ _ => None end) tr.

(** The strings of its [data] events. *)
Definition data_events (tr : list Output) : list string :=
  omap (fun o => match o with Emit (EvData s) => Some s | _ => None end) tr.

(** The responses written, with the response object of each. *)
Definition responses (tr : list Output) : list (nat * Response) :=
  omap (fun o => match o with Write r resp => Some (r, resp) | Emit _ => None end) tr.

(** The outputs of sending strings as [data] events. *)
Definition data_outputs (l : list string) : list Output :=
  map (fun s => Emit (EvData s)) l.

(** A normal response: status 200, an XML body. *)
Definition xml_response (a : gmap string string) (c : list Element) : Response :=
  {| status := 200;
     contentType := "application/xml; charset=utf-8";
     body := XmlBody a c |}.

(** The world when [workInQueue] has taken the request [opts], sent its
    data and retained it in [outQueue], before it looks at the type of
    the request. *)
Definition taken (opts : Opts) (w : World) : World :=
  set_trace (trace w ++ data_outputs (request_data opts))
    (set_this
       (set_outQueue (outQueue (this w) ++ [opts])
          (set_nextRid (js_incr (nextRid (this w)))
             (set_inQueue (delete (number_key (nextRid (this w)))
                             (inQueue (this w)))
                (this w))))
       w).

(** The timer table when the timers of the requests of [l] have been
    cleared, [ot] being their [timer] properties. *)
Definition clear_timers (ot : gmap nat nat) (l : list Opts)
    (ts : gmap nat Timer) : gmap nat Timer :=
  fold_left
    (fun ts o => match ot !! oid o with Some h => delete h ts | None => ts end)
    l ts.

(** The response of a terminated session. *)
Definition terminate_response (xa : gmap string string) : Response :=
  xml_response (xa ∪ terminate_attrs) [].

(** A callback of the [nextTick] queue runs until the queue is empty. *)
Inductive drains : World -> World -> Prop :=
  | drains_done w : ticks w = [] -> drains w w
  | drains_step w w1 w2 :
      tick_step w = Some w1 -> drains w1 w2 -> drains w w2.

End Traces.

(** ** Requests with consecutive request ids

    The notions of the ordering argument: [reqs] are requests with the
    request ids [n], [n+1], ..., and [arrived] holds the positions in
    [reqs] of those that have been handed to [handleHTTP]. *)

Section Consecutive.
Context `{Ltx}.

Definition consecutive (n : Z) (reqs : list Opts) : Prop :=
  forall (i : nat) (r : Opts),
    reqs !! i = Some r ->
    attr_rid (attrs (bodyEl r)) = Some (numToString (n + Z.of_nat i)).

Definition not_terminate (r : Opts) : Prop :=
  attr_type (attrs (bodyEl r)) <> Some "terminate".

(** [inQueue] holds, of the request ids from [n] on, those of the
    requests that have arrived and are not among the first [j]. *)
Definition buffered (n : Z) (reqs : list Opts) (arrived : list nat) (j : nat)
    (w : World) : Prop :=
  forall i : nat,
    inQueue (this w) !! numToString (n + Z.of_nat i)
    = if bool_decide (i ∈ arrived /\ (j <= i)%nat) then reqs !! i else None.

(** The session has processed the first [j] requests, in their order,
    and nothing else since its [data] events were [d0]. *)
Definition processed (n : Z) (reqs : list Opts) (d0 : list string)
    (arrived : list nat) (j : nat) (w : World) : Prop :=
  nextRid (this w) = Some (n + Z.of_nat j)
  /\ (forall i, (i < j)%nat -> i ∈ arrived)
  /\ (forall i, i ∈ arrived -> is_Some (reqs !! i))
  /\ buffered n reqs arrived j w
  /\ data_events (trace w) = d0 ++ concat (map request_data (take j reqs)).

(** The requests of [l] arrive one after the other. *)
Definition arrive (l : list Opts) (w : World) : World :=
  fold_left (fun w r => call (handleHTTP r) w) l w.

End Consecutive.

(** ** The life of a session *)

Section Life.
Context `{Ltx}.

(** The calls that reach a session from outside: the methods other
    objects call, and a timer that goes off. *)
Inductive Call :=
  | CallHandleHTTP (opts : Opts)
  | CallWrite (data : string)
  | CallPause
  | CallResume
  | CallEnd
  | CallFire (h : nat).

Definition do_call (c : Call) (w : World) : World :=
  match c with
  | CallHandleHTTP opts => call (handleHTTP opts) w
  | CallWrite data => call (write data) w
  | CallPause => call pause w
  | CallResume => call resume w
  | CallEnd => call end_ w
  | CallFire h => call (fire h) w
  end.

(** The worlds a session goes through between calls. *)
Inductive reachable : World -> Prop :=
  | reachable_new opts hat :
      reachable (settle (BOSHServerSession opts hat))
  | reachable_call w c :
      reachable w -> reachable (do_call c w).

(** Every pending timer is a session timeout. *)
Definition only_idle_timers (w : World) : Prop :=
  forall h t, timers w !! h = Some t -> callback t = ConnTimer.

(** The session timeout is armed: [connectionTimeout] is the handle of
    a pending timer of 60 seconds that ends the session. *)
Definition idle_timer_armed (w : World) : Prop :=
  exists h,
    connectionTimeout (this w) = Some h
    /\ timers w !! h = Some {| delay := Some 60000; callback := ConnTimer |}.

End Life.

(** ** A stand-in for the XML library, and sample requests

    The examples run the model with elements that are their own text.
    A fragment parses when it opens with a tag and the tag is closed,
    by [/>] at the end or by a closing tag; the stream header the
    connection writes, an open tag, does not parse. *)

Definition ends_with (suffix s : string) : bool :=
  String.eqb
    (substring (String.length s - String.length suffix)
       (String.length suffix) s)
    suffix.

Definition sample_parse (s : string) : option string :=
  if (String.prefix "<" s
      && (ends_with "/>" s || bool_decide (is_Some (index 0 "</" s))))%bool
  then Some s else None.

#[export] Instance sample_ltx : Ltx :=
  {| Element := string;
     ltx_parse := sample_parse;
     root_children_toString := fun e => e |}.

Definition sample_attrs (rid : string) (sid type : option string) : Attrs :=
  {| attr_rid := Some rid;
     attr_sid := sid;
     attr_to := Some "example.com";
     attr_restart := None;
     attr_version := Some "1.0";
     attr_type := type;
     attr_wait := Some "5";
     attr_hold := Some "1" |}.

(** The request with identity [n] and response object [n]. *)
Definition sample_opts (n : nat) (a : Attrs) (stanzas : list string) : Opts :=
  {| oid := n;
     bodyEl := {| attrs := a; children := stanzas |};
     res := n;
     xmlns := None;
     opt_streamAttrs := None;
     opt_sid := None |}.

(** The request that makes the session, and later ones of the session
    ["s1"]. *)
Definition first_request : Opts :=
  sample_opts 0 (sample_attrs "1" None None) [].

Definition request (n : nat) (rid : string) (stanzas : list string) : Opts :=
  sample_opts n (sample_attrs rid (Some "s1") None) stanzas.

Definition terminate_request (n : nat) (rid : string) : Opts :=
  sample_opts n (sample_attrs rid (Some "s1") (Some "terminate")) [].

(** The session when its first request has been processed. *)
Definition session_made : World :=
  settle (BOSHServerSession first_request "s1").

(** The session with its first response sent: no response object is
    held, no stanza is queued. *)
Definition session_idle : World :=
  call (write "<message/>") session_made.

(** ** Statements the code is compared with *)

(** [write] appends the payload to [stanzaQueue] and tells whether
    payloads are waiting to be sent once it has returned. *)
Definition write_reports_backlog `{Ltx} (data : string) (w : World) : Prop :=
  stanzaQueue (this (exec (write data) w)) = stanzaQueue (this w) ++ [data]
  /\ (eval (write data) w = true
      <-> stanzaQueue (this (exec (write data) w)) <> []).

(** [workOutQueue] answers with every payload of the batch: the children
    of the one response it writes are the payloads of [stanzaQueue],
    parsed, one for one and in their order. *)
Definition delivers_whole_batch `{Ltx} (w : World) : Prop :=
  exists r a c,
    trace (exec workOutQueue w) = trace w ++ [Write r (xml_response a c)]
    /\ Forall2 (fun p e => ltx_parse p = Some e) (stanzaQueue (this w)) c.

(** The stream header a connection writes when a stream starts. *)
Definition stream_header : string :=
  "<stream:stream xmlns:stream='http://etherx.jabber.org/streams' xmlns='jabber:client' version='1.0'>".

(** The session with its first request held and the stream header
    written, before [workOutQueue] runs. *)
Definition session_header_written : World :=
  exec (write stream_header) session_made.

(** *** Sample sessions *)

(** A second request is held beside the first. *)
Definition session_two_held : World :=
  call (handleHTTP (request 1 "2" [])) session_made.

(** Both held requests have been answered with a payload. *)
Definition session_drained : World :=
  call (write "<b/>") (call (write "<a/>") session_two_held).

(** A request arrives ahead of its turn and waits in [inQueue]. *)
Definition session_waiting : World :=
  call (handleHTTP (request 2 "4" [])) session_drained.

(** Two requests with the request id 3 arrive while the session waits
    for 2. *)
Definition superseded_request : Opts := request 1 "3" ["<a/>"].
Definition superseding_request : Opts := request 2 "3" ["<b/>"].

Definition session_buffered : World :=
  call (handleHTTP superseded_request) session_made.

Definition session_superseded : World :=
  call (handleHTTP superseding_request) session_buffered.

(** A request of type [terminate] has arrived, and [workInQueue] is
    about to run. *)
Definition session_terminating : World :=
  exec (handleHTTP (terminate_request 2 "3")) session_two_held.

(** A request that restarts the stream has arrived. *)
Definition restart_request : Opts :=
  sample_opts 1
    {| attr_rid := Some "2";
       attr_sid := Some "s1";
       attr_to := Some "example.com";
       attr_restart := Some "true";
       attr_version := Some "1.0";
       attr_type := None;
       attr_wait := None;
       attr_hold := None |}
    ["<bind/>"].

Definition session_restarting : World :=
  exec (handleHTTP restart_request) session_made.

(** A payload is queued while a request is held. *)
Definition session_writing : World :=
  exec (write "<message/>") session_two_held.

(** One request is held, and a payload has been queued for it. *)
Definition session_last_held : World :=
  exec (write "<b/>") (call (write "<a/>") session_two_held).

(** Three requests after the first, each with a stanza. *)
Definition request_a : Opts := request 1 "2" ["<a/>"].
Definition request_b : Opts := request 2 "3" ["<b/>"].
Definition request_c : Opts := request 3 "4" ["<c/>"].

(** ** Worlds the methods lead to *)

Section Outcomes.
Context `{Ltx}.

(** The world when [workOutQueue] has answered the request [opts], the
    oldest of [outQueue], with the payloads of [stanzaQueue], before it
    calls [maySetConnectionTimeout]; [rest] are the requests that stay
    in [outQueue]. *)
Definition delivered (opts : Opts) (rest : list Opts) (w : World) : World :=
  set_trace
    (trace w
     ++ [Write (res opts)
           (xml_response (xmlnsAttrs (this w))
              (omap ltx_parse (stanzaQueue (this w))))])
    (set_optsTimer (delete (oid opts) (optsTimer w))
       (set_timers
          (match optsTimer w !! oid opts with
           | Some h => delete h (timers w)
           | None => timers w
           end)
          (set_this (set_outQueue rest (set_stanzaQueue [] (this w))) w))).

End Outcomes.

(** ** From one world to a later one *)

Section Evolution.
Context `{Ltx}.

(** What the constructor sets and no method assigns. *)
Definition same_config (s s' : Session) : Prop :=
  xmlnsAttrs s' = xmlnsAttrs s
  /\ streamAttrs s' = streamAttrs s
  /\ handshakeAttrs s' = handshakeAttrs s
  /\ sid s' = sid s
  /\ wait s' = wait s
  /\ hold s' = hold s.

(** What a method lets out: an event that is not [connect], the
    response of a replaced request, or a response with an XML body whose
    attributes are [xa], the attributes of the session, and below them
    those of the call. *)
Definition session_output (xa : gmap string string) (o : Output) : Prop :=
  match o with
  | Emit EvConnect => False
  | Emit _ => True
  | Write _ resp =>
      resp = conflict_response
      \/ exists a c, resp = xml_response (xa ∪ a) c
  end.

(** [w'] comes after [w]: the configuration is the same, [nextRid] has
    been incremented some number of times, the trace has grown at its
    end by outputs of the session, and handles have only been given
    out. *)
Definition evolves (w w' : World) : Prop :=
  same_config (this w) (this w')
  /\ (exists k : nat, nextRid (this w') = Nat.iter k js_incr (nextRid (this w)))
  /\ (exists out,
        trace w' = trace w ++ out
        /\ Forall (session_output (xmlnsAttrs (this w))) out)
  /\ (nextHandle w <= nextHandle w')%nat.

(** A response of the session [s]: the text of a replaced request, or
    an XML body that has every attribute of [xmlnsAttrs], the session id
    among them. *)
Definition session_response (s : Session) (resp : Response) : Prop :=
  resp = conflict_response
  \/ exists a c,
       resp = xml_response a c
       /\ a !! "sid" = Some (sid s)
       /\ xmlnsAttrs s ⊆ a.

End Evolution.

(** ** Requests and their responses *)

Section Accounting.
Context `{Ltx}.

(** The request is in one of the two queues. *)
Definition held (w : World) (o : Opts) : Prop :=
  (exists k, inQueue (this w) !! k = Some o) \/ o ∈ outQueue (this w).

(** A response has been written to the response object of the
    request. *)
Definition answered (w : World) (o : Opts) : Prop :=
  exists resp, Write (res o) resp ∈ trace w.

Definition accounted (w : World) (o : Opts) : Prop :=
  held w o \/ answered w o.

(** The response objects of the requests in [inQueue], and those a
    trace has written to. *)
Definition queued (m : gmap string Opts) : list nat :=
  (fun kv => res (snd kv)) <$> map_to_list m.

Definition written (tr : list Output) : list nat :=
  fst <$> responses tr.

(** The response objects the session has seen: those it holds, in
    [inQueue] and in [outQueue], and those it has written to, as often
    as it has. *)
Definition slots (w : World) : list nat :=
  queued (inQueue (this w)) ++ (res <$> outQueue (this w))
  ++ written (trace w).

(** The response object a call brings to the session. *)
Definition arriving (c : Call) : list nat :=
  match c with
  | CallHandleHTTP opts => [res opts]
  | _ => []
  end.

(** The property names [inQueue] takes from [Object.prototype]. With one
    of them for a request id, [inQueue[rid]] reads what is inherited,
    [__proto__] makes no property of [inQueue], and a request stored
    under [hasOwnProperty] hides the method [handleHTTP] and
    [workInQueue] call. *)
Definition inherited_keys : list string :=
  ["constructor"; "hasOwnProperty"; "isPrototypeOf";
   "propertyIsEnumerable"; "toLocaleString"; "toString"; "valueOf";
   "__defineGetter__"; "__defineSetter__"; "__lookupGetter__";
   "__lookupSetter__"; "__proto__"].

Definition plain_key (k : string) : bool :=
  bool_decide (k ∉ inherited_keys).

(** The request id of the request is the name of no inherited
    property. *)
Definition plain_rid (o : Opts) : bool :=
  plain_key (attr_key (attr_rid (attrs (bodyEl o)))).

Definition plain_timer (t : Timer) : bool :=
  match callback t with
  | ReqTimer o => plain_rid o
  | ConnTimer => true
  end.

(** No request is in [inQueue] under the name of an inherited property,
    and no pending timer is that of a request with such an id. *)
Definition plain_world (w : World) : bool :=
  forallb (fun kv => plain_key (fst kv)) (map_to_list (inQueue (this w)))
  && forallb (fun ht => plain_timer (snd ht)) (map_to_list (timers w)).

Definition plain_call (c : Call) : bool :=
  match c with
  | CallHandleHTTP opts => plain_rid opts
  | _ => true
  end.

End Accounting.

(** ** Attributes and timers of a session *)

Section Config.
Context `{Ltx}.

(** The attribute the constructor sets for the prefix [p] of
    [opts.xmlns]. *)
Definition xmlns_key (p : string) : string :=
  if truthy (Some p) then "xmlns:" +:+ p else "xmlns".

(** The delay a timer of the session [s] is set with. *)
Definition expected_delay (s : Session) (cb : Callback) : number :=
  match cb with
  | ReqTimer _ => js_mul (wait s) (Some 1000)
  | ConnTimer => Some 60000
  end.

(** Every pending timer has the delay of its kind. *)
Definition timers_ok (w : World) : Prop :=
  forall h t, timers w !! h = Some t ->
    delay t = expected_delay (this w) (callback t).

End Config.

(** *** More sample sessions *)

(** A request that comes again when it has been processed. *)
Definition stale_request : Opts := request 5 "1" [].

(** The timer of the replaced request has gone off; that of the request
    that replaced it is pending. *)
Definition session_answered_early : World :=
  call (fire 1%nat) session_superseded.

(** A payload waits, and no response object is held. *)
Definition session_backlog : World :=
  call (write "<late/>") session_drained.

(** A first request with zeros before its request id. *)
Definition padded_first_request : Opts :=
  sample_opts 0 (sample_attrs "007" None None) [].

(** A first request with namespaces for the responses. *)
Definition namespace_request : Opts :=
  {| oid := 0;
     bodyEl := {| attrs := sample_attrs "1" None None; children := [] |};
     res := 0;
     xmlns := Some [("", "urn:example:bind"); ("foo", "urn:example:foo")];
     opt_streamAttrs := None;
     opt_sid := Some "chosen" |}.

(** * Properties *)

(** ** Numbers and their strings *)

Lemma digit_prefix_string_of_uint (d : Decimal.uint) :
  digit_prefix (NilEmpty.string_of_uint d) = d.
Proof. induction d; simpl; rewrite ?IHd; reflexivity. Qed.

Lemma parse_digits_string_of_uint (d : Decimal.uint) :
  d <> Decimal.Nil ->
  parse_digits (NilEmpty.string_of_uint d) = Some (Z.of_uint d).
Proof.
  intros Hd. unfold parse_digits. rewrite digit_prefix_string_of_uint.
  destruct d; congruence.
Qed.

(** A numeral read as it was printed: no white space, no sign. *)
Lemma parseInt_string_of_uint (d : Decimal.uint) :
  d <> Decimal.Nil ->
  parseInt_string (NilEmpty.string_of_uint d) = Some (Z.of_uint d).
Proof.
  intros Hd. rewrite <- (parse_digits_string_of_uint d Hd).
  destruct d; try congruence; reflexivity.
Qed.

Lemma parseInt_numToString (z : Z) :
  parseInt_string (numToString z) = Some z.
Proof.
  destruct z as [|p|p]; [reflexivity| |].
  - unfold numToString; simpl.
    pose proof (Unsigned.to_uint_nonnil p) as Hp.
    replace (NilZero.string_of_uint (Pos.to_uint p))
      with (NilEmpty.string_of_uint (Pos.to_uint p))
      by (destruct (Pos.to_uint p); try reflexivity; congruence).
    rewrite parseInt_string_of_uint by assumption.
    unfold Z.of_uint. now rewrite Unsigned.of_to.
  - unfold numToString; simpl.
    pose proof (Unsigned.to_uint_nonnil p) as Hp.
    replace (NilZero.string_of_uint (Pos.to_uint p))
      with (NilEmpty.string_of_uint (Pos.to_uint p))
      by (destruct (Pos.to_uint p); try reflexivity; congruence).
    unfold parseInt_string; simpl.
    rewrite parse_digits_string_of_uint by assumption.
    unfold Z.of_uint. now rewrite Unsigned.of_to.
Qed.

Lemma numToString_inj (x y : Z) : numToString x = numToString y -> x = y.
Proof.
  intros E. apply (f_equal parseInt_string) in E.
  rewrite !parseInt_numToString in E. congruence.
Qed.

Lemma parseInt_number_id (n : number) : parseInt_number n = n.
Proof. destruct n; [apply parseInt_numToString | reflexivity]. Qed.


Section Proofs.
Context `{Ltx}.

(** ** The monad *)

Lemma exec_bind {A B} (m : M A) (k : A -> M B) (w : World) :
  exec (bind m k) w = exec (k (eval m w)) (exec m w).
Proof. unfold exec, eval, bind. now destruct (m w). Qed.

Lemma eval_bind {A B} (m : M A) (k : A -> M B) (w : World) :
  eval (bind m k) w = eval (k (eval m w)) (exec m w).
Proof. unfold exec, eval, bind. now destruct (m w). Qed.

Lemma exec_ret {A} (a : A) (w : World) : exec (ret a) w = w.
Proof. reflexivity. Qed.

Lemma exec_get {A} (f : World -> A) (w : World) : exec (get f) w = w.
Proof. reflexivity. Qed.

Lemma eval_get {A} (f : World -> A) (w : World) : eval (get f) w = f w.
Proof. reflexivity. Qed.

Lemma exec_modify (f : World -> World) (w : World) : exec (modify f) w = f w.
Proof. reflexivity. Qed.

Lemma exec_forEach_cons {A} (x : A) (l : list A) (f : A -> M unit) (w : World) :
  exec (forEach (x :: l) f) w = exec (forEach l f) (exec (f x) w).
Proof. simpl. now rewrite exec_bind. Qed.

Lemma eval_ret {A} (a : A) (w : World) : eval (ret a) w = a.
Proof. reflexivity. Qed.

Lemma exec_setTimeout (cb : Callback) (ms : number) (w : World) :
  exec (setTimeout cb ms) w
  = set_nextHandle (S (nextHandle w))
      (set_timers (<[nextHandle w := {| delay := ms; callback := cb |}]> (timers w)) w).
Proof. reflexivity. Qed.

Lemma eval_setTimeout (cb : Callback) (ms : number) (w : World) :
  eval (setTimeout cb ms) w = nextHandle w.
Proof. reflexivity. Qed.

Create Rewrite HintDb exec.
#[local] Hint Rewrite @exec_bind @eval_bind @exec_ret @eval_ret @exec_get
  @eval_get @exec_modify @exec_setTimeout @eval_setTimeout : exec.

(** Unfolds the primitives and runs a method on a world as far as the
    world is known. *)
Ltac run :=
  repeat (progress (
    unfold emit, writeResponse, clearTimeout, nextTick, get_timer, set_timer,
      delete_timer, modify_this, sendData, closeSocket, respond;
    autorewrite with exec;
    cbn [this optsTimer timers nextHandle ticks trace
      xmlnsAttrs streamAttrs handshakeAttrs sid nextRid wait hold
      inQueue outQueue stanzaQueue connectionTimeout
      set_nextRid set_inQueue set_outQueue set_stanzaQueue
      set_connectionTimeout
      set_this set_optsTimer set_timers set_nextHandle set_ticks set_trace])).

(** Sending strings adds their [data] events to the trace, and nothing
    else changes. *)
Lemma exec_forEach_sendData (l : list string) (w : World) :
  exec (forEach l sendData) w = set_trace (trace w ++ data_outputs l) w.
Proof.
  revert w; induction l as [|s l IH]; intros w.
  - simpl. rewrite app_nil_r. now destruct w.
  - rewrite exec_forEach_cons, IH. unfold sendData, emit. run.
    now rewrite <- app_assoc.
Qed.

Lemma exec_forEach_children (l : list Element) (w : World) :
  exec (forEach l (fun stanza => sendData (root_children_toString stanza))) w
  = set_trace (trace w ++ data_outputs (map root_children_toString l)) w.
Proof.
  revert w; induction l as [|s l IH]; intros w.
  - simpl. rewrite app_nil_r. now destruct w.
  - rewrite exec_forEach_cons, IH. unfold sendData, emit. run.
    now rewrite <- app_assoc.
Qed.

(** ** Traces *)

Lemma data_events_app (t1 t2 : list Output) :
  data_events (t1 ++ t2) = data_events t1 ++ data_events t2.
Proof. apply omap_app. Qed.

Lemma data_events_data_outputs (l : list string) :
  data_events (data_outputs l) = l.
Proof. induction l as [|s l IH]; [reflexivity|]. simpl. now f_equal. Qed.

Lemma data_events_writes {A} (f : A -> nat) (g : A -> Response) (l : list A) :
  data_events (map (fun o => Write (f o) (g o)) l) = [].
Proof. induction l; [reflexivity | assumption]. Qed.

Lemma events_app (t1 t2 : list Output) :
  events (t1 ++ t2) = events t1 ++ events t2.
Proof. apply omap_app. Qed.

(** ** [workInQueue] *)

Lemma workInQueue_waiting (w : World) :
  inQueue (this w) !! number_key (nextRid (this w)) = None ->
  workInQueue w = (tt, w).
Proof.
  intros Hq. unfold workInQueue, bind, get. simpl. now rewrite Hq.
Qed.

Lemma exec_workInQueue_waiting (w : World) :
  inQueue (this w) !! number_key (nextRid (this w)) = None ->
  exec workInQueue w = w.
Proof. intros Hq. unfold exec. now rewrite workInQueue_waiting. Qed.

Lemma workInQueue_next (w : World) (opts : Opts) :
  inQueue (this w) !! number_key (nextRid (this w)) = Some opts ->
  attr_type (attrs (bodyEl opts)) <> Some "terminate" ->
  exec workInQueue w
  = set_ticks (ticks w ++ [TickRespond]) (taken opts w).
Proof.
  intros Hq Ht. unfold workInQueue. run. rewrite Hq. run.
  rewrite exec_forEach_children, !exec_forEach_sendData. run.
  rewrite bool_decide_eq_false_2 by assumption. simpl. run.
  unfold taken, request_data, data_outputs.
  now rewrite !map_app, <- !app_assoc.
Qed.

Lemma exec_terminate_loop (l : list Opts) (w : World) :
  exec (forEach l terminate_held) w
  = set_trace
      (trace w
       ++ map (fun o => Write (res o) (terminate_response (xmlnsAttrs (this w)))) l)
      (set_timers (clear_timers (optsTimer w) l (timers w)) w).
Proof.
  revert w; induction l as [|o l IH]; intros w.
  - simpl. rewrite app_nil_r. now destruct w.
  - rewrite exec_forEach_cons, IH. unfold terminate_held. run.
    destruct (optsTimer w !! oid o) as [h|] eqn:Ho; run; simpl;
      rewrite ?Ho, <- app_assoc; reflexivity.
Qed.

Lemma workInQueue_terminate (w : World) (opts : Opts) :
  inQueue (this w) !! number_key (nextRid (this w)) = Some opts ->
  attr_type (attrs (bodyEl opts)) = Some "terminate" ->
  exec workInQueue w
  = set_trace
      (trace w ++ data_outputs (request_data opts)
       ++ map (fun o => Write (res o) (terminate_response (xmlnsAttrs (this w))))
            (outQueue (this w) ++ [opts])
       ++ [Emit EvEnd; Emit EvClose])
      (set_timers
         (clear_timers (optsTimer w) (outQueue (this w) ++ [opts]) (timers w))
         (set_this (set_outQueue [] (this (taken opts w))) w)).
Proof.
  intros Hq Ht. unfold workInQueue. run. rewrite Hq. run.
  rewrite exec_forEach_children, !exec_forEach_sendData. run.
  rewrite bool_decide_eq_true_2 by assumption. simpl. run.
  rewrite exec_terminate_loop. run.
  unfold taken, request_data, data_outputs. simpl.
  now rewrite !map_app, <- !app_assoc.
Qed.

Lemma clear_timers_None (ot : gmap nat nat) (l : list Opts)
    (ts : gmap nat Timer) (h : nat) :
  ts !! h = None -> clear_timers ot l ts !! h = None.
Proof.
  revert ts; induction l as [|o l IH]; intros ts Hts; [assumption|].
  simpl. apply IH. destruct (ot !! oid o) as [h'|]; [|assumption].
  rewrite lookup_delete. case_decide; [reflexivity | assumption].
Qed.

Lemma clear_timers_cleared (ot : gmap nat nat) (l : list Opts)
    (ts : gmap nat Timer) (o : Opts) (h : nat) :
  o ∈ l -> ot !! oid o = Some h -> clear_timers ot l ts !! h = None.
Proof.
  revert ts; induction l as [|o' l IH]; intros ts Hin Ho.
  - inversion Hin.
  - simpl. apply elem_of_cons in Hin as [-> | Hin].
    + rewrite Ho. apply clear_timers_None, lookup_delete_eq.
    + now apply IH.
Qed.

(** C2. [workInQueue] takes a request of type [terminate]: when it has
    sent the data of the request, every request then in [outQueue], the
    terminating one last, gets a response with the attribute
    [type='terminate'] and no child, and its timer is cleared; [outQueue]
    is left empty, and the session emits [end], then [close]. *)
Theorem terminate_flushes_outQueue (w : World) (opts : Opts) :
  inQueue (this w) !! number_key (nextRid (this w)) = Some opts ->
  attr_type (attrs (bodyEl opts)) = Some "terminate" ->
  xmlnsAttrs (this w) !! "type" = None ->
  let held := outQueue (this w) ++ [opts] in
  let w' := exec workInQueue w in
  trace w'
  = trace w ++ data_outputs (request_data opts)
    ++ map (fun o =>
              Write (res o)
                (xml_response (<["type" := "terminate"]> (xmlnsAttrs (this w))) []))
         held
    ++ [Emit EvEnd; Emit EvClose]
  /\ (forall o h, o ∈ held -> optsTimer w !! oid o = Some h ->
                  timers w' !! h = None)
  /\ outQueue (this w') = [].
Proof.
  intros Hq Ht Hx held w'. subst w'.
  rewrite (workInQueue_terminate w opts Hq Ht). run.
  split; [|split; [|reflexivity]].
  - unfold terminate_response, terminate_attrs.
    now rewrite <- insert_union_singleton_r.
  - intros o h. apply clear_timers_cleared.
Qed.

(** C9. [workInQueue] takes a request with [xmpp:restart='true']: the
    first thing the session emits for it is a [data] event with a new
    stream header, whatever [nextRid] is; the [data] events of the
    request are this header and then its children. *)
Theorem restart_sends_stream_header (w : World) (opts : Opts) :
  inQueue (this w) !! number_key (nextRid (this w)) = Some opts ->
  attr_restart (attrs (bodyEl opts)) = Some "true" ->
  let header :=
    "<stream:stream xmlns='jabber:client' xmlns:stream='http://etherx.jabber.org/streams'  to='"
      +:+ attr_key (attr_to (attrs (bodyEl opts))) +:+ "' version='"
      +:+ attr_key (attr_version (attrs (bodyEl opts))) +:+ "'>" in
  (exists rest,
      trace (exec workInQueue w) = trace w ++ Emit (EvData header) :: rest)
  /\ data_events (trace (exec workInQueue w))
     = data_events (trace w)
       ++ header :: map root_children_toString (children (bodyEl opts)).
Proof.
  intros Hq Hr header.
  assert (Hd : request_data opts
    = header :: map root_children_toString (children (bodyEl opts))).
  { unfold request_data, stream_start, stream_reset. rewrite Hr. reflexivity. }
  destruct (decide (attr_type (attrs (bodyEl opts)) = Some "terminate")) as [Ht|Ht].
  - rewrite (workInQueue_terminate w opts Hq Ht). run.
    rewrite !data_events_app, data_events_data_outputs.
    unfold terminate_response. rewrite data_events_writes, Hd. simpl.
    split; [eexists; reflexivity | now rewrite app_nil_r].
  - rewrite (workInQueue_next w opts Hq Ht). unfold taken. run.
    rewrite data_events_app, data_events_data_outputs, Hd. simpl.
    split; [eexists; reflexivity | reflexivity].
Qed.

(** ** [handleHTTP] *)

(** C3. A request arrives with the request id of a request that is in
    [inQueue]: the response of the request in the queue is completed
    with status 403 and a plain text, and the new request takes its
    place in [inQueue]. *)
Theorem handleHTTP_replaces_same_rid (w : World) (first second : Opts) :
  attr_rid (attrs (bodyEl second)) = attr_rid (attrs (bodyEl first)) ->
  inQueue (this w) !! attr_key (attr_rid (attrs (bodyEl first))) = Some first ->
  let w' := exec (handleHTTP second) w in
  trace w'
  = trace w
    ++ [Write (res first)
          {| status := 403;
             contentType := "text/plain";
             body := TextBody "Request replaced by same RID" |}]
  /\ inQueue (this w')
     = <[attr_key (attr_rid (attrs (bodyEl first))) := second]> (inQueue (this w))
  /\ inQueue (this w') !! attr_key (attr_rid (attrs (bodyEl first)))
     = Some second.
Proof.
  intros Hrid Hq w'. subst w'. unfold handleHTTP. run.
  rewrite Hrid, Hq. unfold handleHTTP_queue. run.
  destruct (connectionTimeout (this w)); run; rewrite Hrid;
    (split; [reflexivity | split; [reflexivity | apply lookup_insert_eq]]).
Qed.

(** ** [workOutQueue] *)

(** C4, as the code has it. With a payload queued and a response object
    held, [workOutQueue] takes the whole of [stanzaQueue] and the oldest
    request of [outQueue], clears the timer of that request, and writes
    one response to it; the children of the response are the payloads
    [ltx.parse] accepts, in the order they were queued, each once. A
    payload that does not parse is left out. *)
Theorem workOutQueue_batch (w : World) (opts : Opts) (rest : list Opts) :
  stanzaQueue (this w) <> [] ->
  outQueue (this w) = opts :: rest ->
  let w' := exec workOutQueue w in
  stanzaQueue (this w') = []
  /\ outQueue (this w') = rest
  /\ optsTimer w' !! oid opts = None
  /\ (forall h, optsTimer w !! oid opts = Some h -> (h < nextHandle w)%nat ->
                timers w' !! h = None)
  /\ trace w'
     = trace w
       ++ [Write (res opts)
             (xml_response (xmlnsAttrs (this w))
                (omap ltx_parse (stanzaQueue (this w))))]
  /\ (Forall (fun p => is_Some (ltx_parse p)) (stanzaQueue (this w)) ->
      Forall2 (fun p e => ltx_parse p = Some e) (stanzaQueue (this w))
        (omap ltx_parse (stanzaQueue (this w)))).
Proof.
  intros Hsq Hoq w'. subst w'. unfold workOutQueue. run. rewrite Hoq.
  destruct (stanzaQueue (this w)) as [|p sq] eqn:Esq; [congruence|].
  cbn [length Nat.ltb Nat.leb andb]. run.
  rewrite (right_id_L ∅ (∪)).
  assert (Hall : Forall (λ p0 : string, is_Some (ltx_parse p0)) (p :: sq) →
    Forall2 (λ (p0 : string) (e : Element), ltx_parse p0 = Some e) (p :: sq)
      (omap ltx_parse (p :: sq))).
  { clear. generalize (p :: sq). intros l Hl. induction Hl as [|x l [e He] _ IH].
    - constructor.
    - simpl. rewrite He. simpl. now constructor. }
  unfold maySetConnectionTimeout.
  destruct (optsTimer w !! oid opts) as [h|] eqn:Eh; run;
    destruct rest as [|o rest]; simpl; run;
    (repeat split; [..|exact Hall]); try reflexivity;
    try apply lookup_delete_eq; try assumption; try discriminate.
  - intros h' [= <-] Hlt. rewrite lookup_insert_ne by lia. apply lookup_delete_eq.
  - intros h' [= <-] _. apply lookup_delete_eq.
Qed.

(** What [workOutQueue] leaves as it is. *)
Lemma workOutQueue_frame (w : World) :
  let w' := exec workOutQueue w in
  nextRid (this w') = nextRid (this w)
  /\ inQueue (this w') = inQueue (this w)
  /\ ticks w' = ticks w
  /\ xmlnsAttrs (this w') = xmlnsAttrs (this w)
  /\ data_events (trace w') = data_events (trace w).
Proof.
  intros w'. subst w'. unfold workOutQueue. run.
  destruct ((length (stanzaQueue (this w)) <? 1)%nat
            && (0 <? length (outQueue (this w)))%nat); run.
  { repeat split. unfold data_events. rewrite omap_app. simpl. apply app_nil_r. }
  destruct (outQueue (this w)) as [|opts rest]; run; [repeat split|].
  unfold maySetConnectionTimeout.
  destruct (optsTimer w !! oid opts) as [h|]; run;
    destruct rest; simpl; run; repeat split;
    unfold data_events; rewrite omap_app; simpl; apply app_nil_r.
Qed.

(** ** The [nextTick] queue runs to its end *)

Lemma size_delete_present {A} (m : gmap string A) (k : string) (x : A) :
  m !! k = Some x -> S (size (delete k m)) = size m.
Proof.
  intros Hk. rewrite map_size_delete_Some by eauto.
  assert (size m <> 0%nat).
  { intros E. apply map_size_empty_iff in E. subst m.
    now rewrite lookup_empty in Hk. }
  lia.
Qed.

Lemma workInQueue_bound (w : World) :
  (tick_bound (exec workInQueue w) <= tick_bound w)%nat.
Proof.
  unfold tick_bound.
  destruct (inQueue (this w) !! number_key (nextRid (this w))) as [opts|] eqn:Hq.
  - pose proof (size_delete_present _ _ _ Hq) as Hs.
    destruct (decide (attr_type (attrs (bodyEl opts)) = Some "terminate")) as [Ht|Ht].
    + rewrite (workInQueue_terminate w opts Hq Ht). unfold taken. run. lia.
    + rewrite (workInQueue_next w opts Hq Ht). unfold taken. run.
      rewrite length_app. simpl. lia.
  - unfold exec. rewrite workInQueue_waiting by assumption. simpl. lia.
Qed.

Lemma workOutQueue_bound (w : World) :
  tick_bound (exec workOutQueue w) = tick_bound w.
Proof.
  unfold tick_bound.
  destruct (workOutQueue_frame w) as (_ & -> & -> & _). reflexivity.
Qed.

Lemma tick_step_bound (w w' : World) :
  tick_step w = Some w' -> (tick_bound w' < tick_bound w)%nat.
Proof.
  unfold tick_step. destruct (ticks w) as [|t ts] eqn:Et; [discriminate|].
  intros [= <-].
  assert (Hpop : S (tick_bound (set_ticks ts w)) = tick_bound w).
  { unfold tick_bound. run. rewrite Et. reflexivity. }
  destruct t; unfold run_tick.
  - pose proof (workInQueue_bound (set_ticks ts w)). lia.
  - rewrite workOutQueue_bound. lia.
  - rewrite exec_bind.
    pose proof (workInQueue_bound (exec workOutQueue (set_ticks ts w))) as Hb.
    rewrite workOutQueue_bound in Hb. lia.
Qed.

Lemma run_ticks_drains (fuel : nat) (w : World) :
  (tick_bound w <= fuel)%nat -> drains w (run_ticks fuel w).
Proof.
  revert w; induction fuel as [|fuel IH]; intros w Hb.
  - simpl. apply drains_done.
    unfold tick_bound in Hb. destruct (ticks w); [reflexivity | simpl in Hb; lia].
  - simpl. destruct (tick_step w) as [w1|] eqn:Es.
    + eapply drains_step; [eassumption|]. apply IH.
      pose proof (tick_step_bound _ _ Es). lia.
    + apply drains_done. unfold tick_step in Es. now destruct (ticks w).
Qed.

(** [settle] leaves no callback in the queue. *)
Lemma settle_drains (w : World) : drains w (settle w).
Proof. apply run_ticks_drains. reflexivity. Qed.

Lemma drains_ticks (w w' : World) : drains w w' -> ticks w' = [].
Proof. induction 1; assumption. Qed.

Lemma drains_deterministic (w w1 w2 : World) :
  drains w w1 -> drains w w2 -> w1 = w2.
Proof.
  intros H1; revert w2; induction H1 as [w Hw | w wa wb Hs H1 IH]; intros w2 H2.
  - destruct H2 as [|w wc wd Hs' _]; [reflexivity|].
    unfold tick_step in Hs'. rewrite Hw in Hs'. discriminate.
  - destruct H2 as [w Hw|w wc wd Hs' H2].
    + unfold tick_step in Hs. rewrite Hw in Hs. discriminate.
    + rewrite Hs in Hs'. injection Hs' as <-. now apply IH.
Qed.

Lemma settle_spec (w w' : World) : drains w w' -> settle w = w'.
Proof. intros Hd. exact (drains_deterministic _ _ _ (settle_drains w) Hd). Qed.

Lemma settle_ticks (w : World) : ticks (settle w) = [].
Proof. exact (drains_ticks _ _ (settle_drains w)). Qed.

Lemma settle_idle (w : World) : ticks w = [] -> settle w = w.
Proof. intros Hw. apply settle_spec. now apply drains_done. Qed.

(** ** Requests are processed in the order of their ids *)

(** What [handleHTTP] does with a request it queues. *)
Lemma handleHTTP_queue_frame (opts : Opts) (w : World) :
  let w' := exec (handleHTTP_queue opts) w in
  inQueue (this w')
  = <[attr_key (attr_rid (attrs (bodyEl opts))) := opts]> (inQueue (this w))
  /\ nextRid (this w') = nextRid (this w)
  /\ ticks w' = ticks w ++ [TickWorkInQueue]
  /\ trace w' = trace w
  /\ outQueue (this w') = outQueue (this w)
  /\ stanzaQueue (this w') = stanzaQueue (this w)
  /\ xmlnsAttrs (this w') = xmlnsAttrs (this w).
Proof.
  intros w'. subst w'. unfold handleHTTP_queue. run.
  destruct (connectionTimeout (this w)); run; repeat split.
Qed.

Section Ordering.
Variables (n : Z) (reqs : list Opts) (d0 : list string).
Hypothesis Hrids : consecutive n reqs.

Lemma key_neq (i j : nat) :
  i <> j -> numToString (n + Z.of_nat i) <> numToString (n + Z.of_nat j).
Proof. intros Hij E. apply numToString_inj in E. lia. Qed.

(** [workInQueue] with the next request in the queue or not. *)
Lemma workInQueue_processed (arrived : list nat) (j : nat) (w : World) :
  ticks w = [] ->
  processed n reqs d0 arrived j w ->
  let w' := exec workInQueue w in
  ((j ∉ arrived) /\ w' = w)
  \/ (exists r, reqs !! j = Some r /\ j ∈ arrived
       /\ processed n reqs d0 arrived (S j) w'
       /\ ticks w' = if bool_decide (not_terminate r) then [TickRespond] else []).
Proof.
  intros Hticks (Hnext & Hpre & Harr & Hbuf & Hdata) w'. subst w'.
  pose proof (Hbuf j) as Hj.
  assert (Hkey : number_key (nextRid (this w)) = numToString (n + Z.of_nat j))
    by now rewrite Hnext.
  case_bool_decide as Hin.
  - right. destruct Hin as [Hin _].
    destruct (reqs !! j) as [r|] eqn:Hr; [|destruct (Harr j Hin); congruence].
    exists r. split; [reflexivity|]. split; [assumption|].
    rewrite <- Hkey in Hj.
    assert (Hnext' : js_incr (nextRid (this w)) = Some (n + Z.of_nat (S j))).
    { rewrite Hnext. simpl. f_equal. lia. }
    assert (Hpre' : forall i, (i < S j)%nat -> i ∈ arrived).
    { intros i Hi. destruct (decide (i = j)) as [->|]; [assumption|].
      apply Hpre. lia. }
    assert (Hbuf' : forall i : nat,
      delete (number_key (nextRid (this w))) (inQueue (this w))
        !! numToString (n + Z.of_nat i)
      = if bool_decide (i ∈ arrived /\ (S j <= i)%nat) then reqs !! i else None).
    { intros i. rewrite Hkey. destruct (decide (i = j)) as [->|Hij].
      - rewrite lookup_delete_eq. rewrite bool_decide_eq_false_2; [reflexivity|].
        intros [_ ?]; lia.
      - rewrite lookup_delete_ne by (apply key_neq; congruence).
        rewrite Hbuf.
        rewrite (bool_decide_ext (i ∈ arrived /\ (j <= i)%nat)
                   (i ∈ arrived /\ (S j <= i)%nat)) by intuition lia.
        reflexivity. }
    assert (Hdata' : data_events (trace w) ++ request_data r
      = d0 ++ concat (map request_data (take (S j) reqs))).
    { rewrite (take_S_r _ _ _ Hr), map_app, concat_app, Hdata. simpl.
      now rewrite app_nil_r, app_assoc. }
    case_bool_decide as Ht.
    + rewrite (workInQueue_next w r Hj Ht). unfold taken. run.
      rewrite Hticks. split; [|reflexivity].
      unfold processed, buffered. run. repeat split; try assumption.
      now rewrite data_events_app, data_events_data_outputs.
    + apply dec_stable in Ht.
      rewrite (workInQueue_terminate w r Hj Ht). unfold taken. run.
      split; [|assumption].
      unfold processed, buffered. run. repeat split; try assumption.
      rewrite !data_events_app, data_events_data_outputs.
      unfold terminate_response. rewrite data_events_writes. simpl.
      now rewrite app_nil_r.
  - left. split; [intros Hin'; apply Hin; split; [assumption | lia]|].
    unfold exec. rewrite workInQueue_waiting; [reflexivity|].
    now rewrite Hkey.
Qed.

Lemma processed_frame (arrived : list nat) (j : nat) (w w' : World) :
  nextRid (this w') = nextRid (this w) ->
  inQueue (this w') = inQueue (this w) ->
  data_events (trace w') = data_events (trace w) ->
  processed n reqs d0 arrived j w ->
  processed n reqs d0 arrived j w'.
Proof.
  intros Hn Hq Hd (Hnext & Hpre & Harr & Hbuf & Hdata).
  unfold processed, buffered. rewrite Hn, Hq, Hd. repeat split; assumption.
Qed.

(** The callbacks [workInQueue] leaves process the requests that follow,
    as far as they have arrived. *)
Lemma ticks_loop (arrived : list nat) (m j : nat) (w : World) (t : Tick) :
  (length reqs - j <= m)%nat ->
  t = TickWorkInQueue \/ t = TickRespond ->
  ticks w = [t] ->
  processed n reqs d0 arrived j w ->
  exists j' w',
    (j <= j')%nat /\ drains w w' /\ processed n reqs d0 arrived j' w'
    /\ (Forall not_terminate reqs -> j' ∉ arrived).
Proof.
  revert j w t; induction m as [|m IH]; intros j w t Hm Ht Hticks Hp.
  all: set (w0 := set_ticks [] w).
  all: assert (Hstep : tick_step w = Some (exec (run_tick t) w0))
         by (unfold tick_step; now rewrite Hticks).
  all: assert (Hw1 : exists w1, exec (run_tick t) w0 = exec workInQueue w1
                      /\ ticks w1 = [] /\ processed n reqs d0 arrived j w1).
  1,3: destruct Ht as [-> | ->]; simpl;
       [ exists w0; split; [reflexivity | split; [reflexivity | exact Hp]]
       | exists (exec workOutQueue w0); rewrite exec_bind;
         destruct (workOutQueue_frame w0) as (Hn & Hq & Ht' & _ & Hd);
         split; [reflexivity | split; [exact Ht'|]];
         apply (processed_frame arrived j w0); assumption || exact Hp ].
  all: destruct Hw1 as (w1 & Hrun & Hticks1 & Hp1); rewrite Hrun in Hstep.
  all: destruct (workInQueue_processed arrived j w1 Hticks1 Hp1)
         as [[Hnot Hsame] | (r & Hr & Hin & Hp2 & Hticks2)].
  1,3: exists j, w1; rewrite Hsame in Hstep;
       split; [lia | split; [|split; [assumption | intros _; assumption]]];
       eapply drains_step; [exact Hstep | now apply drains_done].
  - apply lookup_lt_Some in Hr. lia.
  - case_bool_decide as Hterm.
    + destruct (IH (S j) (exec workInQueue w1) TickRespond)
        as (j' & w' & Hle & Hdr & Hp' & Hmax); auto.
      { apply lookup_lt_Some in Hr. lia. }
      exists j', w'. split; [lia | split; [|split; assumption]].
      eapply drains_step; eassumption.
    + exists (S j), (exec workInQueue w1).
      split; [lia | split; [|split; [assumption|]]].
      * eapply drains_step; [exact Hstep | now apply drains_done].
      * intros Hall. exfalso. apply Hterm.
        exact (proj1 (Forall_lookup _ _) Hall j r Hr).
Qed.

(** A request that has not arrived yet arrives. *)
Lemma arrival_processed (arrived : list nat) (j i : nat) (r : Opts) (w : World) :
  ticks w = [] ->
  processed n reqs d0 arrived j w ->
  i ∉ arrived ->
  reqs !! i = Some r ->
  exists j',
    (j <= j')%nat
    /\ processed n reqs d0 (i :: arrived) j' (call (handleHTTP r) w)
    /\ (Forall not_terminate reqs -> j' ∉ i :: arrived).
Proof.
  intros Hticks Hp Hi Hr.
  pose proof Hp as (Hnext & Hpre & Harr & Hbuf & Hdata).
  assert (Hrid : attr_rid (attrs (bodyEl r)) = Some (numToString (n + Z.of_nat i)))
    by exact (Hrids i r Hr).
  assert (Hji : (j <= i)%nat).
  { destruct (decide (j <= i)%nat); [assumption|]. exfalso. apply Hi, Hpre. lia. }
  assert (Hexec : exec (handleHTTP r) w = exec (handleHTTP_queue r) w).
  { unfold handleHTTP. run. rewrite Hrid. simpl attr_key.
    rewrite Hbuf, bool_decide_eq_false_2 by tauto.
    unfold parseInt. simpl attr_key.
    rewrite parseInt_numToString, parseInt_number_id, Hnext. simpl.
    replace (n + Z.of_nat i <? n + Z.of_nat j) with false by lia. reflexivity. }
  destruct (handleHTTP_queue_frame r w) as (Hq & Hn & Ht & Htr & _).
  rewrite Hrid in Hq. simpl attr_key in Hq.
  assert (Hp1 : processed n reqs d0 (i :: arrived) j (exec (handleHTTP_queue r) w)).
  { unfold processed, buffered. rewrite Hn, Hq, Htr.
    split; [assumption|]. split; [intros k Hk; right; now apply Hpre|].
    split; [intros k [->|Hk]%elem_of_cons; [eauto | now apply Harr]|].
    split; [|assumption].
    intros k. destruct (decide (k = i)) as [->|Hki].
    - rewrite lookup_insert_eq, bool_decide_eq_true_2; [now rewrite Hr|].
      split; [left | assumption].
    - rewrite lookup_insert_ne by (apply key_neq; congruence).
      rewrite Hbuf.
      rewrite (bool_decide_ext (k ∈ arrived /\ (j <= k)%nat)
                 (k ∈ i :: arrived /\ (j <= k)%nat)); [reflexivity|].
      rewrite elem_of_cons. intuition congruence. }
  destruct (ticks_loop (i :: arrived) (length reqs - j) j
              (exec (handleHTTP_queue r) w) TickWorkInQueue)
    as (j' & w' & Hle & Hdr & Hp' & Hmax); auto.
  { now rewrite Ht, Hticks. }
  exists j'. unfold call. rewrite Hexec, (settle_spec _ _ Hdr). auto.
Qed.

(** Requests arrive one after the other, each once. *)
Lemma arrive_processed (order : list nat) (l : list Opts) :
  Forall2 (fun i r => reqs !! i = Some r) order l ->
  forall (arrived : list nat) (j : nat) (w : World),
    NoDup order ->
    (forall i, i ∈ order -> i ∉ arrived) ->
    ticks w = [] ->
    processed n reqs d0 arrived j w ->
    (Forall not_terminate reqs -> j ∉ arrived) ->
    exists arrived' j',
      (forall i, i ∈ arrived' <-> i ∈ order \/ i ∈ arrived)
      /\ processed n reqs d0 arrived' j' (arrive l w)
      /\ (Forall not_terminate reqs -> j' ∉ arrived').
Proof.
  induction 1 as [|i r order l Hr _ IH];
    intros arrived j w Hnd Hfresh Hticks Hp Hmax.
  - exists arrived, j. split; [|split; assumption].
    intros i. rewrite elem_of_nil. tauto.
  - apply NoDup_cons in Hnd as [Hi Hnd].
    destruct (arrival_processed arrived j i r w) as (j1 & Hle & Hp1 & Hmax1);
      auto.
    { apply Hfresh. left. }
    destruct (IH (i :: arrived) j1 (call (handleHTTP r) w))
      as (arrived' & j' & Hmem & Hp' & Hmax'); auto.
    { intros k Hk [->|Hk']%elem_of_cons; [contradiction|].
      apply (Hfresh k); [now right | assumption]. }
    { apply settle_ticks. }
    exists arrived', j'. split; [|split; assumption].
    intros k. rewrite Hmem, !elem_of_cons. tauto.
Qed.

(** Whatever the order in which the requests arrive, the session has
    emitted the data of a first part of them, in the order of their ids,
    and of all of them when none terminates the session. *)
Lemma arrive_any_order (order : list nat) (l : list Opts) (w : World) :
  ticks w = [] ->
  nextRid (this w) = Some n ->
  (forall i : nat, inQueue (this w) !! numToString (n + Z.of_nat i) = None) ->
  d0 = data_events (trace w) ->
  Permutation (seq 0 (length reqs)) order ->
  Forall2 (fun i r => reqs !! i = Some r) order l ->
  exists j,
    data_events (trace (arrive l w))
    = data_events (trace w) ++ concat (map request_data (take j reqs))
    /\ (Forall not_terminate reqs -> j = length reqs).
Proof.
  intros Hticks Hnext Hnone Hd0 Hperm Hl.
  destruct (arrive_processed order l Hl [] 0%nat w)
    as (arrived' & j & Hmem & (_ & Hpre & Harr & _ & Hdata) & Hmax).
  - rewrite <- Hperm. apply NoDup_seq.
  - intros i _. apply not_elem_of_nil.
  - assumption.
  - unfold processed, buffered. rewrite Hnext, Z.add_0_r.
    split; [reflexivity|]. split; [intros i; lia|].
    split; [intros i Hi; now apply elem_of_nil in Hi|].
    split; [|simpl; now rewrite app_nil_r].
    intros i. rewrite Hnone. now case_bool_decide.
  - intros _. apply not_elem_of_nil.
  - exists j. split; [now rewrite Hdata, Hd0|].
    intros Hall. specialize (Hmax Hall).
    assert (Hin : forall i, i ∈ arrived' <-> (i < length reqs)%nat).
    { intros i. rewrite Hmem, <- Hperm, elem_of_seq, elem_of_nil. lia. }
    destruct (decide (j < length reqs)%nat) as [Hlt|Hge].
    + exfalso. apply Hmax, Hin, Hlt.
    + destruct (decide (j = length reqs)) as [|Hne]; [assumption|].
      exfalso. assert (Hk : length reqs ∈ arrived') by (apply Hpre; lia).
      apply Hin in Hk. lia.
Qed.

End Ordering.

Lemma Permutation_three {A} (a b c : A) (l : list A) :
  Permutation [a; b; c] l ->
  l = [a; b; c] \/ l = [a; c; b] \/ l = [b; a; c]
  \/ l = [b; c; a] \/ l = [c; a; b] \/ l = [c; b; a].
Proof.
  intros Hp.
  pose proof (Permutation_length Hp) as Hlen.
  destruct l as [|x [|y [|z [|? ?]]]]; try discriminate. clear Hlen.
  apply Permutation_cons_inv_l in Hp as (l1 & l2 & Hl & Hp).
  apply Permutation_length_2_inv in Hp.
  destruct l1 as [|u1 [|u2 [|u3 l1]]]; simpl in *;
    destruct Hp as [Hp | Hp]; simplify_eq; auto 10.
  all: destruct l1; discriminate.
Qed.

(** C1. Three requests with the request ids [n], [n+1] and [n+2], safe
    integers all three, arrive in any order at a session that waits for
    [n]: the [data] events the
    session emits are those of a first part of the three in the order
    of their ids, and those of all three when none is of type
    [terminate]. And a request with an id above [nextRid] that arrives
    while the request for [nextRid] has not arrived leaves the events of
    the session as they are. *)
Theorem requests_processed_in_order :
  (forall (w : World) (n : Z) (r0 r1 r2 : Opts) (l : list Opts),
      ticks w = [] ->
      nextRid (this w) = Some n ->
      isSafeInteger n = true ->
      isSafeInteger (n + 2) = true ->
      (forall i : nat, inQueue (this w) !! numToString (n + Z.of_nat i) = None) ->
      attr_rid (attrs (bodyEl r0)) = Some (numToString n) ->
      attr_rid (attrs (bodyEl r1)) = Some (numToString (n + 1)) ->
      attr_rid (attrs (bodyEl r2)) = Some (numToString (n + 2)) ->
      Permutation [r0; r1; r2] l ->
      (exists j,
          data_events (trace (arrive l w))
          = data_events (trace w)
            ++ concat (map request_data (take j [r0; r1; r2])))
      /\ (not_terminate r0 -> not_terminate r1 -> not_terminate r2 ->
          data_events (trace (arrive l w))
          = data_events (trace w)
            ++ request_data r0 ++ request_data r1 ++ request_data r2))
  /\ (forall (w : World) (opts : Opts) (m x : Z),
        ticks w = [] ->
        nextRid (this w) = Some m ->
        isSafeInteger m = true ->
        parseInt (attr_rid (attrs (bodyEl opts))) = Some x ->
        m < x ->
        inQueue (this w) !! numToString m = None ->
        events (trace (call (handleHTTP opts) w)) = events (trace w)).
Proof.
  split.
  - intros w n r0 r1 r2 l Hticks Hnext _ _ Hnone H0 H1 H2 Hl.
    assert (Hrids : consecutive n [r0; r1; r2]).
    { intros [|[|[|i]]] r [= <-]; simpl;
        rewrite ?Z.add_0_r; assumption. }
    assert (Hex : exists order,
      Permutation (seq 0 (length [r0; r1; r2])) order
      /\ Forall2 (fun i r => [r0; r1; r2] !! i = Some r) order l).
    { apply Permutation_three in Hl.
      destruct Hl as [-> | [-> | [-> | [-> | [-> | ->]]]]];
        [ exists [0;1;2]%nat | exists [0;2;1]%nat | exists [1;0;2]%nat
        | exists [1;2;0]%nat | exists [2;0;1]%nat | exists [2;1;0]%nat ];
        (split; [simpl; solve_Permutation | repeat constructor]). }
    destruct Hex as (order & Hperm & Hall).
    destruct (arrive_any_order n [r0; r1; r2] (data_events (trace w)) Hrids
                order l w Hticks Hnext Hnone eq_refl Hperm Hall)
      as (j & Hdata & Hfull).
    split; [now exists j|].
    intros Ht0 Ht1 Ht2. rewrite Hdata, Hfull by (repeat constructor; assumption).
    simpl. now rewrite app_nil_r.
  - intros w opts m x Hticks Hnext _ Hx Hlt Hm.
    assert (Hkey : attr_key (attr_rid (attrs (bodyEl opts))) <> numToString m).
    { intros E. unfold parseInt in Hx. rewrite E, parseInt_numToString in Hx.
      injection Hx as Hx. lia. }
    assert (Hsettle : forall w1,
      ticks w1 = [] -> this w1 = this w ->
      events (trace (settle (exec (handleHTTP_queue opts) w1)))
      = events (trace w1)).
    { intros w1 Hticks1 Hthis.
      destruct (handleHTTP_queue_frame opts w1) as (Hq & Hn & Ht & Htr & _).
      rewrite (settle_spec _ (set_ticks [] (exec (handleHTTP_queue opts) w1))).
      { cbn [trace set_ticks]. now rewrite Htr. }
      eapply drains_step; [|apply drains_done; reflexivity].
      unfold tick_step. rewrite Ht, Hticks1. simpl.
      rewrite exec_workInQueue_waiting; [reflexivity|].
      cbn [this set_ticks]. rewrite Hq, Hn, Hthis, Hnext. simpl.
      now rewrite lookup_insert_ne. }
    unfold call, handleHTTP. run.
    destruct (inQueue (this w) !! attr_key (attr_rid (attrs (bodyEl opts))))
      as [old|]; run.
    + rewrite Hsettle by (assumption || reflexivity).
      cbn [trace set_trace]. rewrite events_app. simpl. apply app_nil_r.
    + rewrite Hx, parseInt_number_id, Hnext. simpl.
      replace (x <? m) with false by lia.
      now apply Hsettle.
Qed.

(** ** The attributes of the responses do not change *)

Lemma add_xmlns_no_type (m : gmap string string) (p : string * string) :
  m !! "type" = None -> add_xmlns m p !! "type" = None.
Proof.
  intros Hm. unfold add_xmlns.
  destruct (truthy (Some p.1)); rewrite lookup_insert_ne; done.
Qed.

Lemma init_xmlnsAttrs_no_type (opts : Opts) (the_sid : string) :
  init_xmlnsAttrs opts the_sid !! "type" = None.
Proof.
  unfold init_xmlnsAttrs. rewrite lookup_insert_ne by done.
  generalize (default [] (xmlns opts)). intros l.
  match goal with |- fold_left _ _ ?b !! _ = _ =>
    assert (Hb : b !! "type" = None) by reflexivity; revert Hb; generalize b
  end.
  induction l as [|p l IH]; intros m Hm; [assumption|].
  simpl. now apply IH, add_xmlns_no_type.
Qed.

Lemma workInQueue_xmlnsAttrs (w : World) :
  xmlnsAttrs (this (exec workInQueue w)) = xmlnsAttrs (this w).
Proof.
  destruct (inQueue (this w) !! number_key (nextRid (this w))) as [opts|] eqn:Hq.
  - destruct (decide (attr_type (attrs (bodyEl opts)) = Some "terminate")) as [Ht|Ht].
    + now rewrite (workInQueue_terminate w opts Hq Ht).
    + now rewrite (workInQueue_next w opts Hq Ht).
  - now rewrite exec_workInQueue_waiting.
Qed.

Lemma tick_step_xmlnsAttrs (w w' : World) :
  tick_step w = Some w' -> xmlnsAttrs (this w') = xmlnsAttrs (this w).
Proof.
  unfold tick_step. destruct (ticks w) as [|t ts]; [discriminate|].
  intros [= <-]. destruct t; simpl.
  - now rewrite workInQueue_xmlnsAttrs.
  - now destruct (workOutQueue_frame (set_ticks ts w)) as (_ & _ & _ & -> & _).
  - rewrite exec_bind, workInQueue_xmlnsAttrs.
    now destruct (workOutQueue_frame (set_ticks ts w)) as (_ & _ & _ & -> & _).
Qed.

Lemma settle_xmlnsAttrs (w : World) :
  xmlnsAttrs (this (settle w)) = xmlnsAttrs (this w).
Proof.
  induction (settle_drains w) as [|w w1 w2 Hs _ IH]; [reflexivity|].
  rewrite IH. now apply tick_step_xmlnsAttrs.
Qed.

Lemma handleHTTP_xmlnsAttrs (opts : Opts) (w : World) :
  xmlnsAttrs (this (exec (handleHTTP opts) w)) = xmlnsAttrs (this w).
Proof.
  unfold handleHTTP. run.
  destruct (inQueue (this w) !! attr_key (attr_rid (attrs (bodyEl opts)))); run.
  - now destruct (handleHTTP_queue_frame opts
      (set_trace (trace w ++ [Write (res o) conflict_response]) w))
      as (_ & _ & _ & _ & _ & _ & ->).
  - destruct (js_lt _ _); run; [reflexivity|].
    now destruct (handleHTTP_queue_frame opts w) as (_ & _ & _ & _ & _ & _ & ->).
Qed.

Lemma fire_xmlnsAttrs (h : nat) (w : World) :
  xmlnsAttrs (this (exec (fire h) w)) = xmlnsAttrs (this w).
Proof.
  unfold fire, run_callback. run.
  destruct (timers w !! h) as [[ms [opts|]]|]; cbn [callback]; run;
    try reflexivity.
  unfold onReqTimeout. run.
  destruct (inQueue (this w) !! attr_key (attr_rid (attrs (bodyEl opts))));
    run; [reflexivity|].
  destruct (outQueue (this w)
              !! find_rid (attr_rid (attrs (bodyEl opts))) (outQueue (this w)));
    run; reflexivity.
Qed.

(** The session never has an attribute [type] of its own, so that the
    [type] a response is given is the one it shows. *)
Lemma reachable_no_type (w : World) :
  reachable w -> xmlnsAttrs (this w) !! "type" = None.
Proof.
  induction 1 as [opts hat | w c _ IH].
  - rewrite settle_xmlnsAttrs. unfold BOSHServerSession, maySetConnectionTimeout.
    run. simpl. run. apply init_xmlnsAttrs_no_type.
  - destruct c; unfold do_call, call; rewrite settle_xmlnsAttrs; try exact IH.
    + now rewrite handleHTTP_xmlnsAttrs.
    + now rewrite fire_xmlnsAttrs.
Qed.

(** ** Timers *)

Lemma clear_timers_Some (ot : gmap nat nat) (l : list Opts)
    (ts : gmap nat Timer) (h : nat) (t : Timer) :
  clear_timers ot l ts !! h = Some t -> ts !! h = Some t.
Proof.
  revert ts; induction l as [|o l IH]; intros ts Hh; [assumption|].
  simpl in Hh. apply IH in Hh. destruct (ot !! oid o) as [h'|]; [|assumption].
  rewrite lookup_delete in Hh. now case_decide.
Qed.

Lemma workInQueue_only_idle (w : World) :
  only_idle_timers w -> only_idle_timers (exec workInQueue w).
Proof.
  intros Hw.
  destruct (inQueue (this w) !! number_key (nextRid (this w))) as [opts|] eqn:Hq.
  - destruct (decide (attr_type (attrs (bodyEl opts)) = Some "terminate")) as [Ht|Ht].
    + rewrite (workInQueue_terminate w opts Hq Ht).
      intros h t Hh. cbn [timers set_trace set_timers] in Hh.
      apply clear_timers_Some in Hh. now apply (Hw h).
    + rewrite (workInQueue_next w opts Hq Ht). exact Hw.
  - now rewrite exec_workInQueue_waiting.
Qed.

Lemma workOutQueue_only_idle (w : World) :
  only_idle_timers w -> only_idle_timers (exec workOutQueue w).
Proof.
  intros Hw. unfold workOutQueue. run.
  destruct ((length (stanzaQueue (this w)) <? 1)%nat
            && (0 <? length (outQueue (this w)))%nat); run; [exact Hw|].
  destruct (outQueue (this w)) as [|opts rest]; run; [exact Hw|].
  unfold maySetConnectionTimeout.
  destruct (optsTimer w !! oid opts) as [h|]; run;
    destruct rest; simpl; run; intros h' t; cbn [timers set_timers set_trace
      set_this set_optsTimer set_nextHandle];
    rewrite ?lookup_insert, ?lookup_delete; repeat case_decide;
    try discriminate; try (intros [= <-]; reflexivity); apply Hw.
Qed.

Lemma settle_only_idle (w : World) :
  only_idle_timers w -> only_idle_timers (settle w).
Proof.
  induction (settle_drains w) as [|w w1 w2 Hs _ IH]; [auto|].
  intros Hw. apply IH. unfold tick_step in Hs.
  destruct (ticks w) as [|t ts]; [discriminate|]. injection Hs as <-.
  destruct t; simpl; rewrite ?exec_bind;
    auto using workInQueue_only_idle, workOutQueue_only_idle.
Qed.

(** A session timeout that goes off: [error], then [close], and the
    timer is gone. *)
Lemma fire_idle_timer (w : World) (h : nat) (t : Timer) :
  timers w !! h = Some t ->
  callback t = ConnTimer ->
  exec (fire h) w
  = set_trace (trace w ++ [Emit (EvError "Session timeout"); Emit EvClose])
      (set_timers (delete h (timers w)) w).
Proof.
  intros Hh Ht. unfold fire, run_callback. run. rewrite Hh, Ht. run.
  now rewrite <- app_assoc.
Qed.

Lemma fire_not_pending (w : World) (h : nat) :
  timers w !! h = None -> exec (fire h) w = w.
Proof. intros Hh. unfold fire. run. rewrite Hh. reflexivity. Qed.

Lemma find_rid_app (rid : option string) (pre post : list Opts) (opts : Opts) :
  Forall (fun o => attr_rid (attrs (bodyEl o)) <> rid) pre ->
  attr_rid (attrs (bodyEl opts)) = rid ->
  find_rid rid (pre ++ opts :: post) = length pre.
Proof.
  intros Hpre Hrid. induction Hpre as [|o pre Ho _ IH]; simpl.
  - now rewrite bool_decide_eq_true_2.
  - now rewrite bool_decide_eq_false_2, IH.
Qed.

(** X1. The timer [handleHTTP] sets for a request goes off while the
    request is held: the request leaves the queue it is in and is
    answered with an empty body. *)
Lemma fire_request_timer (w : World) (h : nat) (ms : number) (opts : Opts) :
  timers w !! h = Some {| delay := ms; callback := ReqTimer opts |} ->
  let key := attr_key (attr_rid (attrs (bodyEl opts))) in
  let ack := Write (res opts) (xml_response (xmlnsAttrs (this w)) []) in
  (inQueue (this w) !! key = Some opts ->
   trace (exec (fire h) w) = trace w ++ [ack]
   /\ inQueue (this (exec (fire h) w)) = delete key (inQueue (this w)))
  /\ (forall pre post,
        inQueue (this w) !! key = None ->
        outQueue (this w) = pre ++ opts :: post ->
        Forall (fun o => attr_rid (attrs (bodyEl o))
                         <> attr_rid (attrs (bodyEl opts))) pre ->
        trace (exec (fire h) w) = trace w ++ [ack]
        /\ outQueue (this (exec (fire h) w)) = pre ++ post).
Proof.
  intros Hh key ack. subst key ack.
  split; [intros Hq | intros pre post Hq Hoq Hpre];
    unfold fire, run_callback, onReqTimeout; run; rewrite Hh;
    cbn [callback]; run; rewrite Hq; run.
  - rewrite (right_id_L ∅ (∪)). split; reflexivity.
  - rewrite Hoq, (find_rid_app _ pre post opts Hpre eq_refl).
    rewrite list_lookup_middle by reflexivity. run.
    rewrite (right_id_L ∅ (∪)). split; [reflexivity|].
    rewrite take_app_length. f_equal.
    clear. induction pre as [|o pre IH]; [reflexivity | exact IH].
Qed.

Lemma BOSHServerSession_timers (opts : Opts) (hat : string) :
  timers (BOSHServerSession opts hat)
  = {[ 0%nat := {| delay := Some 60000; callback := ConnTimer |} ]}
  /\ connectionTimeout (this (BOSHServerSession opts hat)) = Some 0%nat.
Proof. split; reflexivity. Qed.

(** C6 at the request that makes the session. The constructor queues
    the request and sets no timer for it: whatever the request, the only
    timers of the new session are session timeouts, and no timer that
    goes off writes a response. For the sample request: it is held in
    [outQueue], nothing waits to be sent, it has no timer, and when the
    one pending timer goes off it is still held, without a response. *)
Theorem first_request_never_acknowledged :
  (forall (opts : Opts) (hat : string) (h : nat),
      let w := settle (BOSHServerSession opts hat) in
      only_idle_timers w
      /\ responses (trace (call (fire h) w)) = responses (trace w))
  /\ outQueue (this session_made) = [first_request]
  /\ stanzaQueue (this session_made) = []
  /\ optsTimer session_made !! oid first_request = None
  /\ timers session_made
     = {[ 0%nat := {| delay := Some 60000; callback := ConnTimer |} ]}
  /\ outQueue (this (call (fire 0%nat) session_made)) = [first_request]
  /\ responses (trace (call (fire 0%nat) session_made)) = [].
Proof.
  split; [|repeat split; reflexivity].
  intros opts hat h w.
  assert (Hw : only_idle_timers w).
  { apply settle_only_idle. intros h' t.
    rewrite (proj1 (BOSHServerSession_timers opts hat)).
    now intros [<- <-]%lookup_singleton_Some. }
  split; [exact Hw|].
  unfold call.
  destruct (timers w !! h) as [t|] eqn:Hh.
  - rewrite (fire_idle_timer w h t Hh (Hw h t Hh)).
    rewrite settle_idle by apply settle_ticks. run.
    unfold responses. rewrite omap_app. simpl. apply app_nil_r.
  - rewrite (fire_not_pending w h Hh).
    now rewrite settle_idle by apply settle_ticks.
Qed.

(** C7 at a request that takes the place of another. [handleHTTP]
    leaves the timer of the request it answers with 403 pending. For
    the sample requests: the first request with the request id 3 is
    answered with 403 when the second arrives, and its timer stays
    pending; when that timer goes off it finds the second request under
    the same id: the second request is answered with an empty body and
    leaves [inQueue] before it was processed. *)
Theorem superseded_timer_still_fires :
  (forall (w : World) (first second : Opts) (h : nat) (t : Timer),
      attr_rid (attrs (bodyEl second)) = attr_rid (attrs (bodyEl first)) ->
      inQueue (this w) !! attr_key (attr_rid (attrs (bodyEl first))) = Some first ->
      optsTimer w !! oid first = Some h ->
      timers w !! h = Some t ->
      (h < nextHandle w)%nat ->
      connectionTimeout (this w) <> Some h ->
      timers (exec (handleHTTP second) w) !! h = Some t)
  /\ responses (trace session_superseded) = [(1%nat, conflict_response)]
  /\ inQueue (this session_superseded) = {[ "3" := superseding_request ]}
  /\ optsTimer session_superseded !! oid superseded_request = Some 1%nat
  /\ timers session_superseded !! 1%nat
     = Some {| delay := Some 5000; callback := ReqTimer superseded_request |}
  /\ responses (trace (call (fire 1%nat) session_superseded))
     = [(1%nat, conflict_response);
        (2%nat, xml_response (xmlnsAttrs (this session_made)) [])]
  /\ inQueue (this (call (fire 1%nat) session_superseded)) = ∅
  /\ data_events (trace (call (fire 1%nat) session_superseded))
     = data_events (trace session_made).
Proof.
  split; [|repeat split; reflexivity].
  intros w first second h t Hrid Hq Ho Hh Hlt Hc.
  unfold handleHTTP. run. rewrite Hrid, Hq. unfold handleHTTP_queue. run.
  destruct (connectionTimeout (this w)) as [c|]; run;
    rewrite lookup_insert_ne by lia; [|assumption].
  rewrite lookup_delete_ne by congruence. assumption.
Qed.

(** C8, as the code has it. The session timeout of 60 seconds is armed
    when the session is made, and when [workOutQueue] answers the last
    request of [outQueue]; [handleHTTP] clears it when it queues a
    request, whatever [outQueue] holds; and a session timeout that goes
    off makes the session emit [error], then [close], and is pending no
    more. *)
Theorem idle_timer_armed_and_fatal :
  (forall (opts : Opts) (hat : string),
      outQueue (this (BOSHServerSession opts hat)) = []
      /\ idle_timer_armed (BOSHServerSession opts hat))
  /\ (forall (w : World) (opts : Opts),
        stanzaQueue (this w) <> [] ->
        outQueue (this w) = [opts] ->
        outQueue (this (exec workOutQueue w)) = []
        /\ idle_timer_armed (exec workOutQueue w))
  /\ (forall (w : World) (opts : Opts) (h : nat),
        connectionTimeout (this w) = Some h ->
        (h < nextHandle w)%nat ->
        js_lt (parseInt (attr_rid (attrs (bodyEl opts))))
          (parseInt_number (nextRid (this w))) = false ->
        let w' := exec (handleHTTP opts) w in
        connectionTimeout (this w') = None
        /\ timers w' !! h = None
        /\ outQueue (this w') = outQueue (this w))
  /\ (forall (w : World) (h : nat) (t : Timer),
        timers w !! h = Some t ->
        callback t = ConnTimer ->
        trace (exec (fire h) w)
        = trace w ++ [Emit (EvError "Session timeout"); Emit EvClose]
        /\ timers (exec (fire h) w) !! h = None).
Proof.
  split; [|split; [|split]].
  - intros opts hat. split; [reflexivity|].
    exists 0%nat. destruct (BOSHServerSession_timers opts hat) as [-> ->].
    split; [reflexivity | apply lookup_singleton_eq].
  - intros w opts Hsq Hoq. unfold idle_timer_armed, workOutQueue. run.
    rewrite Hoq. destruct (stanzaQueue (this w)) as [|p sq]; [congruence|].
    cbn [length Nat.ltb Nat.leb andb]. run. unfold maySetConnectionTimeout.
    destruct (optsTimer w !! oid opts) as [h|]; run; simpl; run;
      (split; [reflexivity|]); eexists; (split; [reflexivity|]);
      apply lookup_insert_eq.
  - intros w opts h Hc Hlt Hstale w'. subst w'. unfold handleHTTP. run.
    rewrite Hstale.
    destruct (inQueue (this w) !! attr_key (attr_rid (attrs (bodyEl opts))));
      unfold handleHTTP_queue; run; rewrite Hc; run;
      (split; [reflexivity|]); (split; [|reflexivity]);
      rewrite lookup_insert_ne by lia; apply lookup_delete_eq.
  - intros w h t Hh Ht. rewrite (fire_idle_timer w h t Hh Ht). run.
    split; [reflexivity | apply lookup_delete_eq].
Qed.

(** ** The socket interface *)

(** C10. [pause], [resume] and [end] return without a change to the
    session, its queues, [nextRid] and the timers, and without an output:
    no event is emitted and no response is written; [end] neither closes
    the session nor completes a held response. *)
Theorem pause_resume_end_no_effect (w : World) :
  pause w = (tt, w) /\ resume w = (tt, w) /\ end_ w = (tt, w).
Proof. repeat split. Qed.

(** C5, as the code has it. [write] appends the payload to
    [stanzaQueue], schedules [workOutQueue], and returns [true] exactly
    when [outQueue] holds a response object, that is when the payload is
    going to be flushed. *)
Theorem write_returns_flush (data : string) (w : World) :
  stanzaQueue (this (exec (write data) w)) = stanzaQueue (this w) ++ [data]
  /\ ticks (exec (write data) w) = ticks w ++ [TickWorkOutQueue]
  /\ outQueue (this (exec (write data) w)) = outQueue (this w)
  /\ (eval (write data) w = true <-> outQueue (this w) <> []).
Proof.
  unfold write. run. repeat split.
  - intros E Hq. now rewrite Hq in E.
  - intros Hq. destruct (outQueue (this w)); [congruence | reflexivity].
Qed.

(** * More of the session *)

(** ** The [nextTick] queue *)

(** X2. The callbacks a call leaves run out: [workInQueue] schedules a
    callback only when it has taken a request out of [inQueue], so at
    most as many callbacks run as are pending plus requests are in
    [inQueue]; with that many steps or more the queue is run to the same
    world, and that world has an empty queue. *)
Theorem nextTick_queue_runs_out (w : World) (fuel : nat) :
  (length (ticks w) + size (inQueue (this w)) <= fuel)%nat ->
  run_ticks fuel w = settle w /\ ticks (run_ticks fuel w) = [].
Proof.
  intros Hfuel.
  pose proof (run_ticks_drains fuel w Hfuel) as Hd.
  split; [symmetry; now apply settle_spec | exact (drains_ticks _ _ Hd)].
Qed.

(** ** [handleHTTP] on a request that is not in [inQueue] *)

(** X3. A request with a request id below [nextRid], safe integers both, and not in
    [inQueue], is put at the end of [outQueue], and that is all: no
    event, no response, no timer for the request, no callback, and the
    session timeout stays as it is. *)
Theorem handleHTTP_stale_request (w : World) (opts : Opts) (x n : Z) :
  inQueue (this w) !! attr_key (attr_rid (attrs (bodyEl opts))) = None ->
  parseInt (attr_rid (attrs (bodyEl opts))) = Some x ->
  nextRid (this w) = Some n ->
  isSafeInteger x = true ->
  isSafeInteger n = true ->
  x < n ->
  exec (handleHTTP opts) w
  = set_this (set_outQueue (outQueue (this w) ++ [opts]) (this w)) w
  /\ (ticks w = [] ->
      call (handleHTTP opts) w
      = set_this (set_outQueue (outQueue (this w) ++ [opts]) (this w)) w).
Proof.
  intros Hq Hx Hn _ _ Hlt.
  assert (He : exec (handleHTTP opts) w
    = set_this (set_outQueue (outQueue (this w) ++ [opts]) (this w)) w).
  { unfold handleHTTP. run.
    rewrite Hq, Hx, parseInt_number_id, Hn. simpl.
    replace (x <? n) with true by lia. run. reflexivity. }
  split; [exact He|].
  intros Hticks. unfold call. rewrite He. now apply settle_idle.
Qed.


(** ** Timers of requests *)

Lemma find_rid_none (rid : option string) (q : list Opts) :
  Forall (fun o => attr_rid (attrs (bodyEl o)) <> rid) q ->
  q !! find_rid rid q = None.
Proof.
  induction 1 as [|o q Ho _ IH]; [reflexivity|].
  simpl. now rewrite bool_decide_eq_false_2.
Qed.

(** X5. The timer of a request goes off when the request is held no
    more, neither in [inQueue] under its request id nor in [outQueue]:
    the timer and [opts.timer] are gone, and nothing else changes; no
    response is written. *)
Theorem fire_spurious_timeout (w : World) (h : nat) (ms : number) (opts : Opts) :
  timers w !! h = Some {| delay := ms; callback := ReqTimer opts |} ->
  inQueue (this w) !! attr_key (attr_rid (attrs (bodyEl opts))) = None ->
  Forall (fun o => attr_rid (attrs (bodyEl o))
                   <> attr_rid (attrs (bodyEl opts))) (outQueue (this w)) ->
  exec (fire h) w
  = set_optsTimer (delete (oid opts) (optsTimer w))
      (set_timers (delete h (timers w)) w).
Proof.
  intros Hh Hq Hoq. unfold fire, run_callback, onReqTimeout. run.
  rewrite Hh. cbn [callback]. run. rewrite Hq. run.
  rewrite (find_rid_none _ _ Hoq). run. reflexivity.
Qed.

(** ** [write] and the callback it leaves *)

Lemma workOutQueue_delivers (w : World) (opts : Opts) (rest : list Opts) :
  stanzaQueue (this w) <> [] ->
  outQueue (this w) = opts :: rest ->
  exec workOutQueue w = exec maySetConnectionTimeout (delivered opts rest w).
Proof.
  intros Hsq Hoq. unfold workOutQueue. run. rewrite Hoq.
  destruct (stanzaQueue (this w)) as [|p sq] eqn:Esq; [congruence|].
  cbn [length Nat.ltb Nat.leb andb]. run.
  rewrite (right_id_L ∅ (∪)). unfold delivered. rewrite Esq.
  destruct (optsTimer w !! oid opts) as [h|] eqn:Eh; run; [reflexivity|].
  now rewrite (delete_id (optsTimer w) (oid opts)) by assumption.
Qed.

Lemma one_tick (w w' : World) (t : Tick) :
  ticks w = [t] ->
  ticks (exec (run_tick t) (set_ticks [] w)) = [] ->
  w' = exec (run_tick t) (set_ticks [] w) ->
  settle w = w'.
Proof.
  intros Ht Hdone ->. apply settle_spec.
  eapply drains_step; [|now apply drains_done].
  unfold tick_step. now rewrite Ht.
Qed.

(** X6. [write] while a response object is held, with no callback
    pending: [write] returns [true], and when its callback has run the
    oldest request of [outQueue] has been answered with the payloads
    that were queued and the new one after them, as far as they parse;
    [stanzaQueue] is empty, and the timer of the request is cleared: it
    is pending no more, and [opts.timer] is deleted. *)
Theorem write_flushes_to_oldest (w : World) (data : string) (opts : Opts)
    (rest : list Opts) :
  ticks w = [] ->
  outQueue (this w) = opts :: rest ->
  let w' := call (write data) w in
  eval (write data) w = true
  /\ trace w'
     = trace w
       ++ [Write (res opts)
             (xml_response (xmlnsAttrs (this w))
                (omap ltx_parse (stanzaQueue (this w) ++ [data])))]
  /\ stanzaQueue (this w') = []
  /\ outQueue (this w') = rest
  /\ optsTimer w' !! oid opts = None
  /\ (forall h, optsTimer w !! oid opts = Some h -> (h < nextHandle w)%nat ->
                timers w' !! h = None)
  /\ ticks w' = [].
Proof.
  intros Hticks Hoq w'. subst w'.
  split; [unfold write; run; now rewrite Hoq|].
  unfold call.
  set (w1 := exec (write data) w).
  assert (Hw1 : ticks w1 = [TickWorkOutQueue]
                /\ stanzaQueue (this w1) = stanzaQueue (this w) ++ [data]
                /\ outQueue (this w1) = opts :: rest).
  { subst w1. unfold write. run. rewrite Hticks. auto. }
  destruct Hw1 as (Ht1 & Hsq1 & Hoq1).
  assert (Hrun : exec (run_tick TickWorkOutQueue) (set_ticks [] w1)
                 = exec maySetConnectionTimeout
                     (delivered opts rest (set_ticks [] w1))).
  { simpl. apply workOutQueue_delivers; cbn [this set_ticks]; [|assumption].
    rewrite Hsq1. now destruct (stanzaQueue (this w)). }
  rewrite (one_tick w1 (exec maySetConnectionTimeout
                          (delivered opts rest (set_ticks [] w1)))
             TickWorkOutQueue Ht1).
  - unfold maySetConnectionTimeout, delivered. run. rewrite Hsq1.
    assert (Hot : optsTimer w1 = optsTimer w /\ timers w1 = timers w
                  /\ nextHandle w1 = nextHandle w).
    { subst w1. unfold write. run. auto. }
    destruct Hot as (-> & -> & Hnh).
    destruct (optsTimer w !! oid opts) as [h|] eqn:Eh;
      destruct rest; simpl; run; rewrite ?Hnh;
      subst w1; unfold write; run;
      repeat split; try apply lookup_delete_eq;
      intros h' [= <-] Hlt; rewrite ?lookup_insert_ne by lia;
      apply lookup_delete_eq.
  - rewrite Hrun. unfold maySetConnectionTimeout, delivered. run.
    destruct rest; simpl; run; reflexivity.
  - now rewrite Hrun.
Qed.

(** X7. [write] while no response object is held, with no callback
    pending: [write] returns [false], the payload is put at the end of
    [stanzaQueue], and when its callback has run nothing else has
    changed; nothing is sent. *)
Theorem write_without_slot_queues (w : World) (data : string) :
  ticks w = [] ->
  outQueue (this w) = [] ->
  eval (write data) w = false
  /\ call (write data) w
     = set_this (set_stanzaQueue (stanzaQueue (this w) ++ [data]) (this w)) w.
Proof.
  intros Hticks Hoq.
  split; [unfold write; run; now rewrite Hoq|].
  unfold call.
  apply (one_tick _ _ TickWorkOutQueue).
  - unfold write. run. now rewrite Hticks.
  - simpl. now destruct (workOutQueue_frame
      (set_ticks [] (exec (write data) w))) as (_ & _ & -> & _).
  - simpl. unfold workOutQueue, write. run. rewrite Hoq.
    destruct (stanzaQueue (this w)); simpl; run;
      destruct w; simpl in *; subst; reflexivity.
Qed.

(** ** A request that arrives in its turn *)

Lemma handleHTTP_queue_timer (opts : Opts) (w : World) :
  let w' := exec (handleHTTP_queue opts) w in
  timers w' !! nextHandle w
  = Some {| delay := js_mul (wait (this w)) (Some 1000);
            callback := ReqTimer opts |}
  /\ optsTimer w' !! oid opts = Some (nextHandle w)
  /\ nextHandle w' = S (nextHandle w)
  /\ connectionTimeout (this w') = None.
Proof.
  intros w'. subst w'. unfold handleHTTP_queue. run.
  destruct (connectionTimeout (this w)) eqn:Hc; run;
    repeat split; try apply lookup_insert_eq; assumption.
Qed.

(** The request for [nextRid] arrives, and the one after it has not:
    the callbacks take it, answer with [workOutQueue], and stop. *)
Lemma in_turn_call (w : World) (opts : Opts) (n : Z) :
  ticks w = [] ->
  nextRid (this w) = Some n ->
  attr_rid (attrs (bodyEl opts)) = Some (numToString n) ->
  inQueue (this w) !! numToString n = None ->
  inQueue (this w) !! numToString (n + 1) = None ->
  not_terminate opts ->
  call (handleHTTP opts) w
  = exec workOutQueue
      (set_ticks [] (taken opts (exec (handleHTTP_queue opts) w))).
Proof.
  intros Hticks Hnext Hrid Hn Hn1 Hterm.
  assert (Hexec : exec (handleHTTP opts) w = exec (handleHTTP_queue opts) w).
  { unfold handleHTTP. run. rewrite Hrid. simpl attr_key. rewrite Hn.
    unfold parseInt. simpl attr_key.
    rewrite parseInt_numToString, parseInt_number_id, Hnext. simpl.
    now rewrite Z.ltb_irrefl. }
  unfold call. rewrite Hexec.
  set (w1 := exec (handleHTTP_queue opts) w).
  destruct (handleHTTP_queue_frame opts w) as (Hq1 & Hn1' & Ht1 & _).
  fold w1 in Hq1, Hn1', Ht1. rewrite Hrid in Hq1. simpl attr_key in Hq1.
  rewrite Hticks in Ht1. simpl in Ht1.
  assert (Hlook : inQueue (this (set_ticks [] w1))
                    !! number_key (nextRid (this (set_ticks [] w1)))
                  = Some opts).
  { cbn [this set_ticks]. rewrite Hn1', Hnext, Hq1. apply lookup_insert_eq. }
  apply settle_spec.
  eapply drains_step.
  { unfold tick_step. rewrite Ht1. simpl.
    rewrite (workInQueue_next _ opts Hlook Hterm). reflexivity. }
  eapply drains_step.
  { unfold tick_step. cbn [ticks set_ticks app]. simpl run_tick.
    rewrite exec_bind. reflexivity. }
  match goal with |- drains (exec workInQueue ?x) _ => set (w3 := x) end.
  destruct (workOutQueue_frame
              (set_ticks [] (taken opts (exec (handleHTTP_queue opts) w))))
    as (Hn3 & Hq3 & Ht3 & _).
  fold w1 in Hn3, Hq3, Ht3.
  assert (Hw3 : w3 = exec workOutQueue (set_ticks [] (taken opts w1)))
    by reflexivity.
  rewrite exec_workInQueue_waiting.
  - rewrite Hw3. apply drains_done. exact Ht3.
  - rewrite Hw3, Hn3, Hq3. unfold taken. cbn [this set_ticks set_trace set_this
      nextRid inQueue set_outQueue set_nextRid set_inQueue].
    rewrite Hn1', Hnext, Hq1. simpl.
    assert (Hne : numToString n <> numToString (Z.succ n))
      by (intros E; apply numToString_inj in E; lia).
    rewrite lookup_delete_ne, lookup_insert_ne by assumption.
    now replace (Z.succ n) with (n + 1) by lia.
Qed.

(** X8. The request for [nextRid], a safe integer, arrives while nothing waits to be
    sent: its data is emitted, then [drain]; the request is held at the
    end of [outQueue] with the timer [handleHTTP] set for it, whatever
    [hold] is; [nextRid] has moved on by one and [inQueue] is as it
    was. *)
Theorem request_in_turn_is_held (w : World) (opts : Opts) (n : Z) :
  ticks w = [] ->
  nextRid (this w) = Some n ->
  isSafeInteger n = true ->
  attr_rid (attrs (bodyEl opts)) = Some (numToString n) ->
  inQueue (this w) !! numToString n = None ->
  inQueue (this w) !! numToString (n + 1) = None ->
  not_terminate opts ->
  stanzaQueue (this w) = [] ->
  let w' := call (handleHTTP opts) w in
  trace w' = trace w ++ data_outputs (request_data opts) ++ [Emit EvDrain]
  /\ outQueue (this w') = outQueue (this w) ++ [opts]
  /\ nextRid (this w') = Some (n + 1)
  /\ inQueue (this w') = inQueue (this w)
  /\ timers w' !! nextHandle w
     = Some {| delay := js_mul (wait (this w)) (Some 1000);
               callback := ReqTimer opts |}
  /\ optsTimer w' !! oid opts = Some (nextHandle w)
  /\ ticks w' = [].
Proof.
  intros Hticks Hnext _ Hrid Hn Hn1 Hterm Hsq w'. subst w'.
  rewrite (in_turn_call w opts n) by assumption.
  destruct (handleHTTP_queue_frame opts w) as (Hq1 & Hn1' & _ & Htr1 & Hoq1 & Hsq1 & _).
  destruct (handleHTTP_queue_timer opts w) as (Htm & Hot & _).
  rewrite Hrid in Hq1. simpl attr_key in Hq1.
  unfold workOutQueue, taken. run.
  rewrite Hsq1, Hsq, Hoq1, length_app. simpl.
  replace (0 <? length (outQueue (this w)) + 1)%nat with true
    by (symmetry; apply Nat.ltb_lt; lia).
  run. rewrite Htr1, Hn1', Hnext, Hq1, <- app_assoc. simpl.
  repeat split; try assumption.
  now apply delete_insert_id.
Qed.

(** X9. The request for [nextRid], a safe integer, arrives while payloads wait and no
    response object is held: its data is emitted, and the request is
    answered at once with the payloads that waited, as far as they
    parse; its timer is cleared, [stanzaQueue] and [outQueue] are empty,
    and the session timeout is armed. *)
Theorem request_in_turn_takes_backlog (w : World) (opts : Opts) (n : Z) :
  ticks w = [] ->
  nextRid (this w) = Some n ->
  isSafeInteger n = true ->
  attr_rid (attrs (bodyEl opts)) = Some (numToString n) ->
  inQueue (this w) !! numToString n = None ->
  inQueue (this w) !! numToString (n + 1) = None ->
  not_terminate opts ->
  stanzaQueue (this w) <> [] ->
  outQueue (this w) = [] ->
  let w' := call (handleHTTP opts) w in
  trace w'
  = trace w ++ data_outputs (request_data opts)
    ++ [Write (res opts)
          (xml_response (xmlnsAttrs (this w))
             (omap ltx_parse (stanzaQueue (this w))))]
  /\ stanzaQueue (this w') = []
  /\ outQueue (this w') = []
  /\ nextRid (this w') = Some (n + 1)
  /\ timers w' !! nextHandle w = None
  /\ idle_timer_armed w'.
Proof.
  intros Hticks Hnext _ Hrid Hn Hn1 Hterm Hsq Hoq w'. subst w'.
  rewrite (in_turn_call w opts n) by assumption.
  destruct (handleHTTP_queue_frame opts w)
    as (Hq1 & Hn1' & _ & Htr1 & Hoq1 & Hsq1 & Hx1).
  destruct (handleHTTP_queue_timer opts w) as (Htm & Hot & Hnh & _).
  rewrite (workOutQueue_delivers _ opts []).
  - unfold maySetConnectionTimeout, delivered, taken, idle_timer_armed. run.
    simpl. run. rewrite Hot, Htr1, Hn1', Hnext, Hsq1, Hx1, Hnh, <- app_assoc.
    simpl. repeat split.
    + rewrite lookup_insert_ne by lia. apply lookup_delete_eq.
    + eexists. split; [reflexivity | apply lookup_insert_eq].
  - unfold taken. cbn [this set_ticks set_trace set_this stanzaQueue
      set_outQueue set_nextRid set_inQueue]. now rewrite Hsq1.
  - unfold taken. cbn [this set_ticks set_trace set_this outQueue
      set_outQueue set_nextRid set_inQueue]. now rewrite Hoq1, Hoq.
Qed.

(** ** What every method keeps *)

Lemma evolves_refl (w : World) : evolves w w.
Proof.
  split; [repeat split|]. split; [now exists 0%nat|].
  split; [|lia]. exists []. split; [now rewrite app_nil_r | constructor].
Qed.

Lemma evolves_trans (w1 w2 w3 : World) :
  evolves w1 w2 -> evolves w2 w3 -> evolves w1 w3.
Proof.
  intros (Hc1 & (k1 & Hk1) & (o1 & Ho1 & Hf1) & Hh1)
         (Hc2 & (k2 & Hk2) & (o2 & Ho2 & Hf2) & Hh2).
  pose proof Hc1 as (Hx1 & ?). 
  split.
  { destruct Hc1 as (? & ? & ? & ? & ? & ?), Hc2 as (? & ? & ? & ? & ? & ?).
    repeat split; congruence. }
  split.
  { exists (k2 + k1)%nat. rewrite Hk2, Hk1. symmetry. apply Nat.iter_add. }
  split; [|lia].
  exists (o1 ++ o2). rewrite Ho2, Ho1, app_assoc. split; [reflexivity|].
  apply Forall_app. split; [assumption|]. now rewrite <- Hx1.
Qed.

(** A world that differs from [w] only where the queues, the timers and
    the callbacks are, and in outputs added to the trace. *)
Lemma evolves_outputs (w w' : World) (out : list Output) :
  same_config (this w) (this w') ->
  nextRid (this w') = nextRid (this w) ->
  trace w' = trace w ++ out ->
  Forall (session_output (xmlnsAttrs (this w))) out ->
  (nextHandle w <= nextHandle w')%nat ->
  evolves w w'.
Proof.
  intros Hc Hn Ht Hf Hh. split; [assumption|].
  split; [now exists 0%nat|]. split; [|assumption]. now exists out.
Qed.

Lemma session_output_data (xa : gmap string string) (l : list string) :
  Forall (session_output xa) (data_outputs l).
Proof. induction l; constructor; [exact I | assumption]. Qed.

Lemma workInQueue_evolves (w : World) : evolves w (exec workInQueue w).
Proof.
  destruct (inQueue (this w) !! number_key (nextRid (this w))) as [opts|] eqn:Hq.
  - destruct (decide (attr_type (attrs (bodyEl opts)) = Some "terminate")) as [Ht|Ht].
    + rewrite (workInQueue_terminate w opts Hq Ht).
      split; [repeat split|]. split; [now exists 1%nat|]. split; [|run; lia].
      eexists. split; [reflexivity|].
      apply Forall_app. split; [apply session_output_data|].
      apply Forall_app. split; [|repeat constructor].
      apply Forall_forall. intros o [x [<- _]]%list_elem_of_In%in_map_iff.
      right. now exists terminate_attrs, [].
    + rewrite (workInQueue_next w opts Hq Ht).
      split; [repeat split|]. split; [now exists 1%nat|].
      split; [|unfold taken; run; lia].
      eexists. split; [reflexivity | apply session_output_data].
  - rewrite exec_workInQueue_waiting by assumption. apply evolves_refl.
Qed.

Lemma session_output_conflict (xa : gmap string string) (r : nat) :
  session_output xa (Write r conflict_response).
Proof. now left. Qed.

Lemma session_output_xml (xa a : gmap string string) (r : nat)
    (c : list Element) :
  session_output xa (Write r (xml_response (xa ∪ a) c)).
Proof. right. now exists a, c. Qed.

(** Closes the side conditions of [evolves_outputs]. *)
Ltac frame_goal :=
  solve
    [ reflexivity
    | repeat split; reflexivity
    | rewrite app_nil_r; reflexivity
    | rewrite <- app_assoc; reflexivity
    | repeat first
        [ apply Forall_nil
        | apply Forall_cons; split
        | exact I
        | apply session_output_conflict
        | apply session_output_xml ]
    | run; lia ].

Lemma workOutQueue_evolves (w : World) : evolves w (exec workOutQueue w).
Proof.
  unfold workOutQueue. run.
  destruct ((length (stanzaQueue (this w)) <? 1)%nat
            && (0 <? length (outQueue (this w)))%nat); run.
  { apply (evolves_outputs _ _ [Emit EvDrain]); frame_goal. }
  destruct (outQueue (this w)) as [|opts rest]; run; [apply evolves_refl|].
  unfold maySetConnectionTimeout.
  destruct (optsTimer w !! oid opts) as [h|]; run;
    destruct rest; simpl; run;
    (eapply (evolves_outputs _ _ [_]); frame_goal).
Qed.

Lemma handleHTTP_evolves (opts : Opts) (w : World) :
  evolves w (exec (handleHTTP opts) w).
Proof.
  unfold handleHTTP, handleHTTP_queue. run.
  destruct (inQueue (this w) !! attr_key (attr_rid (attrs (bodyEl opts))));
    run; [|destruct (js_lt _ _); run];
    try (destruct (connectionTimeout (this w)); run).
  1,2: apply (evolves_outputs _ _ [Write (res o) conflict_response]);
         frame_goal.
  all: apply (evolves_outputs _ _ []); frame_goal.
Qed.

Lemma fire_evolves (h : nat) (w : World) : evolves w (exec (fire h) w).
Proof.
  unfold fire, run_callback. run.
  destruct (timers w !! h) as [[ms [opts|]]|]; cbn [callback]; run.
  - unfold onReqTimeout. run.
    destruct (inQueue (this w) !! attr_key (attr_rid (attrs (bodyEl opts))));
      run.
    + eapply (evolves_outputs _ _ [_]); frame_goal.
    + destruct (outQueue (this w)
                  !! find_rid (attr_rid (attrs (bodyEl opts))) (outQueue (this w)));
        run.
      * eapply (evolves_outputs _ _ [_]); frame_goal.
      * apply (evolves_outputs _ _ []); frame_goal.
  - apply (evolves_outputs _ _ [Emit (EvError "Session timeout"); Emit EvClose]);
      frame_goal.
  - apply evolves_refl.
Qed.

Lemma write_evolves (data : string) (w : World) :
  evolves w (exec (write data) w).
Proof.
  unfold write. run. apply (evolves_outputs _ _ []); frame_goal.
Qed.

Lemma settle_evolves (w : World) : evolves w (settle w).
Proof.
  induction (settle_drains w) as [|w w1 w2 Hs _ IH]; [apply evolves_refl|].
  eapply evolves_trans; [|exact IH].
  unfold tick_step in Hs. destruct (ticks w) as [|t ts]; [discriminate|].
  injection Hs as <-.
  apply (evolves_trans _ (set_ticks ts w)).
  { apply (evolves_outputs _ _ []); frame_goal. }
  destruct t; simpl; rewrite ?exec_bind.
  - apply workInQueue_evolves.
  - apply workOutQueue_evolves.
  - eapply evolves_trans; [apply workOutQueue_evolves | apply workInQueue_evolves].
Qed.

Lemma do_call_evolves (c : Call) (w : World) : evolves w (do_call c w).
Proof.
  destruct c; unfold do_call, call;
    (eapply evolves_trans; [|apply settle_evolves]).
  - apply handleHTTP_evolves.
  - apply write_evolves.
  - apply evolves_refl.
  - apply evolves_refl.
  - apply evolves_refl.
  - apply fire_evolves.
Qed.

Lemma iter_js_incr (k : nat) (n : Z) :
  Nat.iter k js_incr (Some n) = Some (n + Z.of_nat k).
Proof.
  induction k as [|k IH]; [simpl; f_equal; lia|].
  rewrite Nat.iter_succ, IH. simpl. f_equal. lia.
Qed.

Lemma iter_js_incr_NaN (k : nat) : Nat.iter k js_incr NaN = NaN.
Proof. induction k as [|k IH]; [reflexivity|]. now rewrite Nat.iter_succ, IH. Qed.

(** X10. Whatever is called, [nextRid] moves forward only: after the
    call and its callbacks it is what it was or a whole number of steps
    above; and when it is no number it stays so. *)
Theorem nextRid_only_advances (c : Call) (w : World) :
  (forall n, nextRid (this w) = Some n ->
     exists k : nat, nextRid (this (do_call c w)) = Some (n + Z.of_nat k))
  /\ (nextRid (this w) = NaN -> nextRid (this (do_call c w)) = NaN).
Proof.
  destruct (do_call_evolves c w) as (_ & (k & Hk) & _).
  split.
  - intros n Hn. exists k. now rewrite Hk, Hn, iter_js_incr.
  - intros Hn. now rewrite Hk, Hn, iter_js_incr_NaN.
Qed.

(** X11. No call, with the callbacks it leaves, assigns what the
    constructor has set: the attributes of the responses, the stream and
    handshake attributes, [sid], [wait] and [hold]. *)
Theorem session_config_is_fixed (c : Call) (w : World) :
  same_config (this w) (this (do_call c w)).
Proof. exact (proj1 (do_call_evolves c w)). Qed.

(** The trace of a session: [connect], then outputs of the methods. *)
Lemma reachable_outputs (w : World) :
  reachable w ->
  xmlnsAttrs (this w) !! "sid" = Some (sid (this w))
  /\ exists out,
       trace w = Emit EvConnect :: out
       /\ Forall (session_output (xmlnsAttrs (this w))) out.
Proof.
  assert (Hstep : forall w w' : World,
    evolves w w' ->
    (xmlnsAttrs (this w) !! "sid" = Some (sid (this w))
     /\ exists out,
          trace w = Emit EvConnect :: out
          /\ Forall (session_output (xmlnsAttrs (this w))) out) ->
    xmlnsAttrs (this w') !! "sid" = Some (sid (this w'))
    /\ exists out,
         trace w' = Emit EvConnect :: out
         /\ Forall (session_output (xmlnsAttrs (this w'))) out).
  { intros w0 w' ((Hx & _ & _ & Hs & _) & _ & (o & Ho & Hf) & _)
           (Hsid & out & Htr & Hout).
    rewrite Hx, Hs. split; [assumption|].
    exists (out ++ o). rewrite Ho, Htr. split; [reflexivity|].
    apply Forall_app. now split. }
  induction 1 as [opts hat | w c _ IH].
  - apply (Hstep (BOSHServerSession opts hat)); [apply settle_evolves|].
    split; [apply lookup_insert_eq|].
    exists []. split; [reflexivity | constructor].
  - apply (Hstep w); [apply do_call_evolves | exact IH].
Qed.

(** X12. Every response a session has written is the text of a replaced
    request, or has an XML body with every attribute of the session: the
    namespaces and the session id. *)
Theorem responses_carry_session_attrs (w : World) :
  reachable w ->
  Forall (fun rr => session_response (this w) (snd rr)) (responses (trace w)).
Proof.
  intros (Hsid & out & -> & Hout)%reachable_outputs.
  unfold responses. simpl. induction Hout as [|o out Ho _ IH]; [constructor|].
  simpl. destruct o as [e|r resp]; [exact IH|].
  simpl. constructor; [|exact IH].
  simpl. destruct Ho as [-> | (a & c & ->)]; [now left|].
  right. exists (xmlnsAttrs (this w) ∪ a), c.
  split; [reflexivity|].
  split; [now apply lookup_union_Some_l | apply map_union_subseteq_l].
Qed.

(** X13. A session emits [connect] once, before anything else. *)
Theorem connect_emitted_once (w : World) :
  reachable w ->
  exists rest,
    events (trace w) = EvConnect :: rest /\ EvConnect ∉ rest.
Proof.
  intros (_ & out & -> & Hout)%reachable_outputs.
  exists (events out). split; [reflexivity|].
  induction Hout as [|o out Ho _ IH]; [apply not_elem_of_nil|].
  destruct o as [e|r resp]; [|exact IH].
  change (events (Emit e :: out)) with (e :: events out).
  apply not_elem_of_cons. split; [|exact IH].
  intros <-. exact Ho.
Qed.

(** ** No request is lost *)

Lemma answered_evolves (w w' : World) (o : Opts) :
  evolves w w' -> answered w o -> answered w' o.
Proof.
  intros (_ & _ & (out & Ho & _) & _) [resp Hr].
  exists resp. rewrite Ho. apply elem_of_app. now left.
Qed.

Lemma handleHTTP_accounted (opts : Opts) (w : World) (o : Opts) :
  accounted w o \/ o = opts -> accounted (exec (handleHTTP opts) w) o.
Proof.
  intros [[Hheld | Hans] | ->].
  2: { right. exact (answered_evolves _ _ _ (handleHTTP_evolves opts w) Hans). }
  all: unfold handleHTTP, handleHTTP_queue, accounted, held, answered; run.
  all: destruct (inQueue (this w) !! attr_key (attr_rid (attrs (bodyEl opts))))
         as [old|] eqn:Hq; run; [|destruct (js_lt _ _); run];
       try (destruct (connectionTimeout (this w)); run).
  all: try (left; left; eexists; apply lookup_insert_eq).
  all: try (left; right; apply elem_of_app; right; apply list_elem_of_singleton;
            reflexivity).
  all: destruct Hheld as [[k Hk] | Hin];
       try (left; right; first [assumption | apply elem_of_app; now left]).
  all: try (destruct (decide (attr_key (attr_rid (attrs (bodyEl opts))) = k))
              as [<- | Hne];
            [ first
                [ congruence
                | right; exists conflict_response; rewrite Hq in Hk;
                  injection Hk as <-; apply elem_of_app; right;
                  apply list_elem_of_singleton; reflexivity ]
            | left; left; exists k; now rewrite lookup_insert_ne ]).
  all: left; left; now exists k.
Qed.

Lemma workInQueue_accounted (w : World) (o : Opts) :
  accounted w o -> accounted (exec workInQueue w) o.
Proof.
  intros [Hheld | Hans].
  2: { right. exact (answered_evolves _ _ _ (workInQueue_evolves w) Hans). }
  destruct (inQueue (this w) !! number_key (nextRid (this w))) as [opts|] eqn:Hq.
  2: { rewrite exec_workInQueue_waiting by assumption. now left. }
  destruct (decide (attr_type (attrs (bodyEl opts)) = Some "terminate")) as [Ht|Ht].
  - rewrite (workInQueue_terminate w opts Hq Ht).
    unfold accounted, held, answered, taken. run.
    destruct Hheld as [[k Hk] | Hin].
    + destruct (decide (number_key (nextRid (this w)) = k)) as [<- | Hne].
      * rewrite Hq in Hk. injection Hk as <-. right.
        exists (terminate_response (xmlnsAttrs (this w))).
        rewrite !elem_of_app. right. right. left.
        apply list_elem_of_In, in_map_iff. exists opts.
        split; [reflexivity|]. apply in_or_app. right. now left.
      * left. left. exists k. now rewrite lookup_delete_ne.
    + right. exists (terminate_response (xmlnsAttrs (this w))).
      rewrite !elem_of_app. right. right. left.
      apply list_elem_of_In, in_map_iff. exists o.
      split; [reflexivity|]. apply in_or_app. left. now apply list_elem_of_In.
  - rewrite (workInQueue_next w opts Hq Ht).
    unfold accounted, held, answered, taken. run.
    destruct Hheld as [[k Hk] | Hin].
    + destruct (decide (number_key (nextRid (this w)) = k)) as [<- | Hne].
      * rewrite Hq in Hk. injection Hk as <-. left. right.
        apply elem_of_app. right. now apply list_elem_of_singleton.
      * left. left. exists k. now rewrite lookup_delete_ne.
    + left. right. apply elem_of_app. now left.
Qed.

Lemma workOutQueue_accounted (w : World) (o : Opts) :
  accounted w o -> accounted (exec workOutQueue w) o.
Proof.
  intros [Hheld | Hans].
  2: { right. exact (answered_evolves _ _ _ (workOutQueue_evolves w) Hans). }
  unfold held in Hheld.
  unfold workOutQueue, accounted, held, answered. run.
  destruct ((length (stanzaQueue (this w)) <? 1)%nat
            && (0 <? length (outQueue (this w)))%nat); run; [now left|].
  destruct (outQueue (this w)) as [|opts rest] eqn:Hoq; run.
  { left. rewrite ?Hoq. exact Hheld. }
  assert (Hcase : (exists k, inQueue (this w) !! k = Some o) \/ o = opts \/ o ∈ rest).
  { destruct Hheld as [Hk | Hin]; [now left|]. right.
    now apply elem_of_cons in Hin. }
  unfold maySetConnectionTimeout.
  destruct (optsTimer w !! oid opts) as [h|]; run;
    destruct rest as [|o' rest]; simpl; run;
    (destruct Hcase as [Hk | [-> | Hin]];
     [ now left; left
     | right; eexists; apply elem_of_app; right;
       apply list_elem_of_singleton; reflexivity
     | now left; right ]).
Qed.

Lemma fire_accounted (h : nat) (w : World) (o : Opts) :
  accounted w o -> accounted (exec (fire h) w) o.
Proof.
  intros [Hheld | Hans].
  2: { right. exact (answered_evolves _ _ _ (fire_evolves h w) Hans). }
  unfold fire, run_callback, accounted, held, answered. run.
  destruct (timers w !! h) as [[ms [opts|]]|]; cbn [callback]; run;
    [|now left..].
  unfold onReqTimeout. run.
  destruct (inQueue (this w) !! attr_key (attr_rid (attrs (bodyEl opts))))
    as [found|] eqn:Hq; run.
  - destruct Hheld as [[k Hk] | Hin]; [|now left; right].
    destruct (decide (attr_key (attr_rid (attrs (bodyEl opts))) = k))
      as [<- | Hne].
    + rewrite Hq in Hk. injection Hk as <-. right. eexists.
      apply elem_of_app. right. apply list_elem_of_singleton. reflexivity.
    + left. left. exists k. now rewrite lookup_delete_ne.
  - destruct (outQueue (this w)
                !! find_rid (attr_rid (attrs (bodyEl opts))) (outQueue (this w)))
      as [found|] eqn:Hi; run; [|now left].
    destruct Hheld as [Hk | Hin]; [now left; left|].
    rewrite <- (take_drop_middle _ _ _ Hi) in Hin.
    apply elem_of_app in Hin as [Hin | Hin].
    + left. right. apply elem_of_app. now left.
    + apply elem_of_cons in Hin as [-> | Hin].
      * right. eexists. apply elem_of_app. right.
        apply list_elem_of_singleton. reflexivity.
      * left. right. apply elem_of_app. now right.
Qed.

Lemma settle_accounted (w : World) (o : Opts) :
  accounted w o -> accounted (settle w) o.
Proof.
  induction (settle_drains w) as [|w w1 w2 Hs _ IH]; [auto|].
  intros Ha. apply IH. unfold tick_step in Hs.
  destruct (ticks w) as [|t ts]; [discriminate|]. injection Hs as <-.
  assert (Ha' : accounted (set_ticks ts w) o) by exact Ha.
  destruct t; simpl; rewrite ?exec_bind;
    auto using workInQueue_accounted, workOutQueue_accounted.
Qed.

(** X14. No request is dropped, where no request id is the name of a
    property [inQueue] inherits. A request that is handed to
    [handleHTTP], or that makes the session, is in [inQueue] or in
    [outQueue] or has been given a response when the call is over; and
    it stays so through every later call. The children of a request
    body are elements, as [children] has them. *)
Theorem no_request_is_lost :
  (forall (opts : Opts) (hat : string),
      plain_rid opts = true ->
      accounted (settle (BOSHServerSession opts hat)) opts)
  /\ (forall (w : World) (opts : Opts),
        plain_world w = true ->
        plain_rid opts = true ->
        accounted (call (handleHTTP opts) w) opts)
  /\ (forall (c : Call) (w : World) (o : Opts),
        plain_world w = true ->
        plain_call c = true ->
        accounted w o -> accounted (do_call c w) o).
Proof.
  split; [|split].
  - intros opts hat _. apply settle_accounted. left. left.
    exists (attr_key (attr_rid (attrs (bodyEl opts)))).
    unfold BOSHServerSession, maySetConnectionTimeout. run.
    cbn [init_world init_session this outQueue length Nat.ltb Nat.leb]. run.
    apply lookup_insert_eq.
  - intros w opts _ _. apply settle_accounted, handleHTTP_accounted. now right.
  - intros c w o _ _ Ha. destruct c; unfold do_call, call; apply settle_accounted;
      try exact Ha.
    + apply handleHTTP_accounted. now left.
    + apply fire_accounted, Ha.
Qed.

(** ** Response objects are conserved *)

Lemma queued_insert_None (m : gmap string Opts) (k : string) (o : Opts) :
  m !! k = None -> queued (<[k := o]> m) ≡ₚ res o :: queued m.
Proof.
  intros Hk. unfold queued. rewrite map_to_list_insert by assumption.
  reflexivity.
Qed.

Lemma queued_delete (m : gmap string Opts) (k : string) (o : Opts) :
  m !! k = Some o -> res o :: queued (delete k m) ≡ₚ queued m.
Proof.
  intros Hk. unfold queued.
  rewrite <- (map_to_list_delete m k o Hk), fmap_cons. reflexivity.
Qed.

Lemma queued_insert_Some (m : gmap string Opts) (k : string) (old o : Opts) :
  m !! k = Some old ->
  res old :: queued (<[k := o]> m) ≡ₚ res o :: queued m.
Proof.
  intros Hk. rewrite <- (insert_delete_eq m k o).
  rewrite queued_insert_None by apply lookup_delete_eq.
  rewrite <- (queued_delete m k old Hk). apply perm_swap.
Qed.

Lemma written_app (t1 t2 : list Output) :
  written (t1 ++ t2) = written t1 ++ written t2.
Proof. unfold written, responses. now rewrite omap_app, fmap_app. Qed.

Lemma written_data_outputs (l : list string) : written (data_outputs l) = [].
Proof. induction l; [reflexivity | assumption]. Qed.

Lemma written_writes (f : Opts -> Response) (l : list Opts) :
  written (map (fun o => Write (res o) (f o)) l) = res <$> l.
Proof.
  induction l as [|o l IH]; [reflexivity|].
  change (res o :: written (map (fun o => Write (res o) (f o)) l)
          = res o :: (res <$> l)).
  now f_equal.
Qed.

Lemma slots_handleHTTP (opts : Opts) (w : World) :
  slots (exec (handleHTTP opts) w) ≡ₚ res opts :: slots w.
Proof.
  unfold handleHTTP, handleHTTP_queue, slots. run.
  destruct (inQueue (this w) !! attr_key (attr_rid (attrs (bodyEl opts))))
    as [old|] eqn:Hq; run; [|destruct (js_lt _ _); run];
    try (destruct (connectionTimeout (this w)); run).
  1,2: rewrite written_app;
       change (written [Write (res old) conflict_response]) with [res old];
       (etrans;
        [| apply (Permutation_app_tail _ (queued_insert_Some _ _ old opts Hq))]);
       solve_Permutation.
  1,2: rewrite fmap_app; simpl; solve_Permutation.
  all: now rewrite (queued_insert_None _ _ opts Hq).
Qed.

Lemma slots_workInQueue (w : World) :
  slots (exec workInQueue w) ≡ₚ slots w.
Proof.
  destruct (inQueue (this w) !! number_key (nextRid (this w))) as [opts|] eqn:Hq.
  2: { now rewrite exec_workInQueue_waiting. }
  destruct (decide (attr_type (attrs (bodyEl opts)) = Some "terminate")) as [Ht|Ht].
  - rewrite (workInQueue_terminate w opts Hq Ht). unfold slots, taken. run.
    rewrite !written_app, written_data_outputs, written_writes, fmap_app.
    rewrite <- (queued_delete _ _ opts Hq). simpl. solve_Permutation.
  - rewrite (workInQueue_next w opts Hq Ht). unfold slots, taken. run.
    rewrite written_app, written_data_outputs, fmap_app.
    rewrite <- (queued_delete _ _ opts Hq). simpl. solve_Permutation.
Qed.

Lemma slots_workOutQueue (w : World) :
  slots (exec workOutQueue w) ≡ₚ slots w.
Proof.
  unfold workOutQueue, slots. run.
  destruct ((length (stanzaQueue (this w)) <? 1)%nat
            && (0 <? length (outQueue (this w)))%nat); run.
  { rewrite written_app. simpl. now rewrite app_nil_r. }
  destruct (outQueue (this w)) as [|opts rest] eqn:Hoq; run; rewrite ?Hoq;
    [reflexivity|].
  unfold maySetConnectionTimeout.
  destruct (optsTimer w !! oid opts) as [h|]; run;
    destruct rest; simpl; run; rewrite ?Hoq, written_app;
    match goal with
    | |- context [written [Write ?r ?x]] =>
        change (written [Write r x]) with [r]
    end;
    simpl; solve_Permutation.
Qed.

Lemma slots_fire (h : nat) (w : World) :
  slots (exec (fire h) w) ≡ₚ slots w.
Proof.
  unfold fire, run_callback, slots. run.
  destruct (timers w !! h) as [[ms [opts|]]|]; cbn [callback]; run;
    [| rewrite <- app_assoc, written_app;
       change (written [Emit (EvError "Session timeout"); Emit EvClose])
         with (@nil nat);
       now rewrite app_nil_r
     | reflexivity].
  unfold onReqTimeout. run.
  destruct (inQueue (this w) !! attr_key (attr_rid (attrs (bodyEl opts))))
    as [found|] eqn:Hq; run.
  - rewrite written_app.
    match goal with
    | |- context [written [Write ?r ?x]] =>
        change (written [Write r x]) with [r]
    end.
    rewrite <- (queued_delete _ _ found Hq). simpl. solve_Permutation.
  - destruct (outQueue (this w)
                !! find_rid (attr_rid (attrs (bodyEl opts))) (outQueue (this w)))
      as [found|] eqn:Hi; run; [|reflexivity].
    rewrite written_app.
    match goal with
    | |- context [written [Write ?r ?x]] =>
        change (written [Write r x]) with [r]
    end.
    revert Hi.
    generalize (find_rid (attr_rid (attrs (bodyEl opts))) (outQueue (this w))).
    generalize (outQueue (this w)). intros oq i Hi.
    rewrite <- (take_drop_middle oq i found Hi) at 3.
    rewrite !fmap_app, fmap_cons. solve_Permutation.
Qed.

Lemma slots_settle (w : World) : slots (settle w) ≡ₚ slots w.
Proof.
  induction (settle_drains w) as [|w w1 w2 Hs _ IH]; [reflexivity|].
  rewrite IH. unfold tick_step in Hs.
  destruct (ticks w) as [|t ts]; [discriminate|]. injection Hs as <-.
  change (slots w) with (slots (set_ticks ts w)).
  destruct t; simpl; rewrite ?exec_bind.
  - apply slots_workInQueue.
  - apply slots_workOutQueue.
  - rewrite slots_workInQueue. apply slots_workOutQueue.
Qed.

(** X15. Response objects are conserved, where no request id is the
    name of a property [inQueue] inherits: after a call, the response
    objects the session holds in its two queues together with those it
    has written to are those of before the call, and the one of the
    request when the call is [handleHTTP]. A held response object is
    never dropped and never held twice, and a response is written only
    to a response object that was held. The children of a request body
    are elements, as [children] has them. *)
Theorem response_objects_conserved (c : Call) (w : World) :
  plain_world w = true ->
  plain_call c = true ->
  slots (do_call c w) ≡ₚ arriving c ++ slots w.
Proof.
  intros _ _. destruct c; unfold do_call, call; rewrite slots_settle; simpl.
  - apply slots_handleHTTP.
  - reflexivity.
  - reflexivity.
  - reflexivity.
  - reflexivity.
  - apply slots_fire.
Qed.

Lemma held_in_slots (w : World) (o : Opts) :
  held w o ->
  res o ∈ queued (inQueue (this w)) ++ (res <$> outQueue (this w)).
Proof.
  intros [[k Hk] | Hin]; apply elem_of_app; [left | right].
  - unfold queued. apply list_elem_of_fmap. exists (k, o).
    split; [reflexivity | now apply elem_of_map_to_list].
  - apply list_elem_of_fmap. now exists o.
Qed.

Lemma answered_in_written (w : World) (o : Opts) :
  answered w o -> res o ∈ written (trace w).
Proof.
  intros [resp Hr]. unfold written, responses.
  apply list_elem_of_fmap. exists (res o, resp). split; [reflexivity|].
  apply list_elem_of_omap. now exists (Write (res o) resp).
Qed.

(** X16. Each response object gets one response at most. When the
    requests that arrive bring response objects the session has not
    seen, the response objects it holds and those it has written to stay
    distinct one from another: no response object is written to twice,
    and a request that is still held has had no response. It is so from
    the constructor on. *)
Theorem one_response_per_object :
  (forall (opts : Opts) (hat : string),
      NoDup (slots (settle (BOSHServerSession opts hat))))
  /\ (forall (c : Call) (w : World),
        NoDup (slots w) ->
        (forall r, r ∈ arriving c -> r ∉ slots w) ->
        NoDup (slots (do_call c w)))
  /\ (forall w : World,
        NoDup (slots w) ->
        NoDup (written (trace w))
        /\ forall o, held w o -> ~ answered w o).
Proof.
  split; [|split].
  - intros opts hat. rewrite slots_settle.
    assert (Hs : slots (BOSHServerSession opts hat) ≡ₚ [res opts]).
    { unfold slots, BOSHServerSession, maySetConnectionTimeout. run.
      cbn [init_world init_session this outQueue length Nat.ltb Nat.leb]. run.
      cbn [init_world init_session this outQueue inQueue trace].
      rewrite queued_insert_None by apply lookup_empty.
      unfold queued. rewrite map_to_list_empty. reflexivity. }
    rewrite Hs. apply NoDup_singleton.
  - intros c w Hnd Hfresh.
    destruct c; unfold do_call, call; rewrite slots_settle;
      try exact Hnd; [rewrite slots_handleHTTP | now rewrite slots_fire].
    apply NoDup_cons. split; [|exact Hnd].
    apply Hfresh. simpl. apply list_elem_of_singleton. reflexivity.
  - intros w Hnd. unfold slots in Hnd. rewrite app_assoc in Hnd.
    apply NoDup_app in Hnd as (_ & Hdisj & Hw).
    split; [exact Hw|].
    intros o Hheld Hans.
    exact (Hdisj _ (held_in_slots w o Hheld) (answered_in_written w o Hans)).
Qed.

(** ** The request that makes the session *)

(** X17. The request that makes the session has a request id written
    as the plain decimal numeral of a safe integer, and is not of type
    [terminate]: the
    callback of the constructor processes it. The session has emitted
    [connect], the data of the request and [drain]; the request is held
    in [outQueue], [nextRid] is the id after its own, and the session
    timeout armed by the constructor is still pending: when it goes off,
    [error] and [close] are emitted while the request is held. *)
Theorem first_request_is_processed (opts : Opts) (hat : string) (n : Z) :
  attr_rid (attrs (bodyEl opts)) = Some (numToString n) ->
  isSafeInteger n = true ->
  not_terminate opts ->
  let w := settle (BOSHServerSession opts hat) in
  trace w = Emit EvConnect :: data_outputs (request_data opts) ++ [Emit EvDrain]
  /\ outQueue (this w) = [opts]
  /\ inQueue (this w) = ∅
  /\ nextRid (this w) = Some (n + 1)
  /\ idle_timer_armed w
  /\ trace (call (fire 0%nat) w)
     = trace w ++ [Emit (EvError "Session timeout"); Emit EvClose]
  /\ outQueue (this (call (fire 0%nat) w)) = [opts].
Proof.
  intros Hrid _ Hterm.
  set (w0 := BOSHServerSession opts hat). intros w.
  assert (H0 : ticks w0 = [TickWorkInQueue]
               /\ nextRid (this w0) = Some n
               /\ inQueue (this w0) = {[ numToString n := opts ]}
               /\ outQueue (this w0) = []
               /\ stanzaQueue (this w0) = []
               /\ trace w0 = [Emit EvConnect]).
  { subst w0. unfold BOSHServerSession, maySetConnectionTimeout. run.
    cbn [init_world init_session this outQueue length Nat.ltb Nat.leb]. run.
    cbn [init_world init_session this outQueue inQueue trace ticks nextRid
         stanzaQueue app].
    rewrite Hrid. unfold parseInt. simpl attr_key.
    rewrite parseInt_numToString. repeat split. }
  destruct H0 as (Ht0 & Hn0 & Hq0 & Hoq0 & Hsq0 & Htr0).
  assert (Hlook : inQueue (this (set_ticks [] w0))
                    !! number_key (nextRid (this (set_ticks [] w0)))
                  = Some opts).
  { cbn [this set_ticks]. rewrite Hn0, Hq0. apply lookup_singleton_eq. }
  set (w2 := exec workOutQueue (set_ticks [] (taken opts w0))).
  assert (Hw2 : w2 = set_trace (trace (taken opts w0) ++ [Emit EvDrain])
                       (set_ticks [] (taken opts w0))).
  { subst w2. unfold workOutQueue, taken. run. rewrite Hsq0, Hoq0. reflexivity. }
  assert (Hw : w = w2).
  { subst w. apply settle_spec.
    eapply drains_step.
    { unfold tick_step. rewrite Ht0. simpl.
      rewrite (workInQueue_next _ opts Hlook Hterm). reflexivity. }
    eapply drains_step.
    { unfold tick_step. cbn [ticks set_ticks app]. simpl run_tick.
      rewrite exec_bind. reflexivity. }
    change (drains (exec workInQueue w2) w2).
    rewrite exec_workInQueue_waiting.
    - apply drains_done. now rewrite Hw2.
    - rewrite Hw2. unfold taken. cbn [this set_ticks set_trace set_this
        nextRid inQueue set_outQueue set_nextRid set_inQueue].
      rewrite Hn0, Hq0. simpl. rewrite lookup_delete_ne, lookup_singleton_ne;
        try reflexivity; intros E; apply numToString_inj in E; lia. }
  assert (Htimers : timers w = {[ 0%nat := {| delay := Some 60000;
                                               callback := ConnTimer |} ]}
                    /\ connectionTimeout (this w) = Some 0%nat).
  { rewrite Hw, Hw2. unfold taken. cbn [timers this connectionTimeout set_trace
      set_ticks set_this set_outQueue set_nextRid set_inQueue].
    exact (BOSHServerSession_timers opts hat). }
  destruct Htimers as [Htm Hct].
  assert (Hfire : exec (fire 0%nat) w
    = set_trace (trace w ++ [Emit (EvError "Session timeout"); Emit EvClose])
        (set_timers (delete 0%nat (timers w)) w)).
  { apply (fire_idle_timer w 0%nat {| delay := Some 60000; callback := ConnTimer |});
      [rewrite Htm; apply lookup_singleton_eq | reflexivity]. }
  assert (Hcall : call (fire 0%nat) w = exec (fire 0%nat) w).
  { unfold call. apply settle_idle. rewrite Hfire. cbn [ticks set_trace set_timers].
    subst w. apply settle_ticks. }
  assert (Harm : idle_timer_armed w).
  { exists 0%nat. split; [exact Hct|]. rewrite Htm. apply lookup_singleton_eq. }
  assert (Hfacts : trace w = Emit EvConnect
                             :: data_outputs (request_data opts) ++ [Emit EvDrain]
                   /\ outQueue (this w) = [opts]
                   /\ inQueue (this w) = ∅
                   /\ nextRid (this w) = Some (n + 1)).
  { rewrite Hw, Hw2. unfold taken. run.
    rewrite Htr0, Hoq0, Hn0, Hq0. simpl.
    repeat split. apply delete_singleton_eq. }
  destruct Hfacts as (Htr & Hoq & Hiq & Hnr).
  rewrite Hcall, Hfire. cbn [trace this set_trace set_timers].
  repeat split; assumption.
Qed.

(** X18. The request that makes the session has a request id that is
    not the numeral of the number [parseInt] reads in it (no [rid], a
    sign, leading zeros or white space, text after the digits, no digit
    at all): the request stays in [inQueue] under its own key, and the
    callback of the constructor does nothing. The session has emitted
    [connect] only, holds no request in [outQueue], and the request has
    no timer. *)
Theorem first_request_stalls (opts : Opts) (hat : string) :
  attr_key (attr_rid (attrs (bodyEl opts)))
  <> number_key (parseInt (attr_rid (attrs (bodyEl opts)))) ->
  let w := settle (BOSHServerSession opts hat) in
  trace w = [Emit EvConnect]
  /\ outQueue (this w) = []
  /\ inQueue (this w) = {[ attr_key (attr_rid (attrs (bodyEl opts))) := opts ]}
  /\ nextRid (this w) = parseInt (attr_rid (attrs (bodyEl opts)))
  /\ optsTimer w = ∅.
Proof.
  intros Hkey w.
  assert (Hw : w = set_ticks [] (BOSHServerSession opts hat)).
  { subst w. apply settle_spec.
    eapply drains_step; [|now apply drains_done].
    unfold tick_step. change (ticks (BOSHServerSession opts hat))
      with [TickWorkInQueue]. simpl.
    rewrite exec_workInQueue_waiting; [reflexivity|].
    change (({[ attr_key (attr_rid (attrs (bodyEl opts))) := opts ]}
              : gmap string Opts)
              !! number_key (parseInt (attr_rid (attrs (bodyEl opts)))) = None).
    now apply lookup_singleton_ne. }
  rewrite Hw. repeat split.
Qed.

(** ** What follows a [terminate], and a timer that goes off early *)

Lemma events_data_outputs (l : list string) :
  events (data_outputs l) = EvData <$> l.
Proof. induction l as [|x l IH]; [reflexivity|]. simpl. now f_equal. Qed.

Lemma events_writes {A} (f : A -> nat) (g : A -> Response) (l : list A) :
  events (map (fun o => Write (f o) (g o)) l) = [].
Proof. induction l; [reflexivity | assumption]. Qed.

(** The request for [nextRid] arrives and is of type [terminate]. *)
Lemma terminate_in_turn_call (w : World) (opts : Opts) (n : Z) :
  ticks w = [] ->
  nextRid (this w) = Some n ->
  attr_rid (attrs (bodyEl opts)) = Some (numToString n) ->
  inQueue (this w) !! numToString n = None ->
  attr_type (attrs (bodyEl opts)) = Some "terminate" ->
  let w1 := set_ticks [] (exec (handleHTTP_queue opts) w) in
  call (handleHTTP opts) w = exec workInQueue w1
  /\ inQueue (this w1) !! number_key (nextRid (this w1)) = Some opts.
Proof.
  intros Hticks Hnext Hrid Hn Hterm w1.
  assert (Hexec : exec (handleHTTP opts) w = exec (handleHTTP_queue opts) w).
  { unfold handleHTTP. run. rewrite Hrid. simpl attr_key. rewrite Hn.
    unfold parseInt. simpl attr_key.
    rewrite parseInt_numToString, parseInt_number_id, Hnext. simpl.
    now rewrite Z.ltb_irrefl. }
  destruct (handleHTTP_queue_frame opts w) as (Hq1 & Hn1 & Ht1 & _).
  rewrite Hrid in Hq1. simpl attr_key in Hq1. rewrite Hticks in Ht1.
  assert (Hlook : inQueue (this w1) !! number_key (nextRid (this w1)) = Some opts).
  { subst w1. cbn [this set_ticks]. rewrite Hn1, Hnext, Hq1.
    apply lookup_insert_eq. }
  split; [|exact Hlook].
  unfold call. rewrite Hexec. apply settle_spec.
  eapply drains_step.
  { unfold tick_step. rewrite Ht1. reflexivity. }
  apply drains_done. simpl run_tick. fold w1.
  rewrite (workInQueue_terminate w1 opts Hlook Hterm). reflexivity.
Qed.

(** X19. The session does not end with a [terminate]. When the request
    for [nextRid] (a safe integer, as is the next) is of type [terminate] and the request after it
    arrives next, that request is processed as any other: its data is
    emitted after [close], then [drain], and it is held in
    [outQueue]. *)
Theorem session_goes_on_after_terminate (w : World) (t r : Opts) (n : Z) :
  ticks w = [] ->
  nextRid (this w) = Some n ->
  isSafeInteger n = true ->
  isSafeInteger (n + 1) = true ->
  attr_rid (attrs (bodyEl t)) = Some (numToString n) ->
  attr_rid (attrs (bodyEl r)) = Some (numToString (n + 1)) ->
  inQueue (this w) !! numToString n = None ->
  inQueue (this w) !! numToString (n + 1) = None ->
  inQueue (this w) !! numToString (n + 2) = None ->
  attr_type (attrs (bodyEl t)) = Some "terminate" ->
  not_terminate r ->
  stanzaQueue (this w) = [] ->
  let w' := call (handleHTTP r) (call (handleHTTP t) w) in
  events (trace w')
  = events (trace w) ++ (EvData <$> request_data t) ++ [EvEnd; EvClose]
    ++ (EvData <$> request_data r) ++ [EvDrain]
  /\ outQueue (this w') = [r]
  /\ nextRid (this w') = Some (n + 2).
Proof.
  intros Hticks Hnext _ _ Ht Hr Hn Hn1 Hn2 Hterm Hnot Hsq w'. subst w'.
  destruct (terminate_in_turn_call w t n Hticks Hnext Ht Hn Hterm)
    as [Hcall Hlook].
  destruct (handleHTTP_queue_frame t w) as (Hq1 & Hnr1 & _ & Htr1 & Hoq1 & Hsq1 & _).
  rewrite Ht in Hq1. simpl attr_key in Hq1.
  set (w1 := call (handleHTTP t) w).
  assert (Hw1 : ticks w1 = []
    /\ nextRid (this w1) = Some (n + 1)
    /\ inQueue (this w1) = inQueue (this w)
    /\ outQueue (this w1) = []
    /\ stanzaQueue (this w1) = []
    /\ events (trace w1)
       = events (trace w) ++ (EvData <$> request_data t) ++ [EvEnd; EvClose]).
  { subst w1. rewrite Hcall, (workInQueue_terminate _ t Hlook Hterm).
    unfold taken. run. rewrite Hnr1, Hnext, Hq1, Hsq1, Htr1.
    rewrite !events_app, events_data_outputs.
    unfold terminate_response. rewrite events_writes. simpl.
    repeat split; [now apply delete_insert_id | assumption]. }
  destruct Hw1 as (Ht1 & Hnext1 & Hq1' & Hoq1' & Hsq1' & Hev1).
  assert (Hn1' : inQueue (this w1) !! numToString (n + 1) = None)
    by now rewrite Hq1'.
  assert (Hn2' : inQueue (this w1) !! numToString (n + 1 + 1) = None).
  { rewrite Hq1'. now replace (n + 1 + 1) with (n + 2) by lia. }
  rewrite (in_turn_call w1 r (n + 1)) by assumption.
  destruct (handleHTTP_queue_frame r w1) as (_ & Hnr2 & _ & Htr2 & Hoq2 & Hsq2 & _).
  unfold workOutQueue, taken. run.
  rewrite Hsq2, Hsq1', Hoq2, Hoq1'. simpl. run.
  rewrite Htr2, Hnr2, Hnext1, !events_app, events_data_outputs, Hev1.
  simpl. rewrite <- !app_assoc. simpl.
  repeat split. f_equal. lia.
Qed.

(** X20. A request waits in [inQueue] for the one before it, the request for
    [nextRid], a safe integer, and its
    timer goes off first: it is answered with an empty body and leaves
    [inQueue]. When the request before it arrives, that one is
    processed, and the data of the request that was answered is never
    emitted: the session waits for its request id again. *)
Theorem timed_out_request_is_skipped (w : World) (r0 r1 : Opts) (n : Z)
    (h : nat) (ms : number) :
  ticks w = [] ->
  nextRid (this w) = Some n ->
  isSafeInteger n = true ->
  attr_rid (attrs (bodyEl r0)) = Some (numToString n) ->
  attr_rid (attrs (bodyEl r1)) = Some (numToString (n + 1)) ->
  inQueue (this w) !! numToString n = None ->
  inQueue (this w) !! numToString (n + 1) = Some r1 ->
  timers w !! h = Some {| delay := ms; callback := ReqTimer r1 |} ->
  not_terminate r0 ->
  let w1 := call (fire h) w in
  let w' := call (handleHTTP r0) w1 in
  trace w1
  = trace w ++ [Write (res r1) (xml_response (xmlnsAttrs (this w)) [])]
  /\ data_events (trace w') = data_events (trace w) ++ request_data r0
  /\ nextRid (this w') = Some (n + 1)
  /\ inQueue (this w') !! numToString (n + 1) = None.
Proof.
  intros Hticks Hnext _ H0 H1 Hn Hn1 Hh Hnot w1 w'.
  assert (Hfire : exec (fire h) w
    = set_trace
        (trace w ++ [Write (res r1) (xml_response (xmlnsAttrs (this w)) [])])
        (set_this
           (set_inQueue (delete (numToString (n + 1)) (inQueue (this w)))
              (this w))
           (set_optsTimer (delete (oid r1) (optsTimer w))
              (set_timers (delete h (timers w)) w)))).
  { unfold fire, run_callback, onReqTimeout. run. rewrite Hh. cbn [callback].
    run. rewrite H1. simpl attr_key. rewrite Hn1. run.
    now rewrite (right_id_L ∅ (∪)). }
  assert (Hw1 : w1 = exec (fire h) w).
  { subst w1. unfold call. apply settle_idle. now rewrite Hfire. }
  assert (Hne : numToString (n + 1) <> numToString n)
    by (intros E; apply numToString_inj in E; lia).
  assert (Hfacts : ticks w1 = [] /\ nextRid (this w1) = Some n
    /\ inQueue (this w1) !! numToString n = None
    /\ inQueue (this w1) !! numToString (n + 1) = None
    /\ data_events (trace w1) = data_events (trace w)).
  { rewrite Hw1, Hfire. run. repeat split; try assumption.
    - now rewrite lookup_delete_ne.
    - apply lookup_delete_eq.
    - rewrite data_events_app. simpl. apply app_nil_r. }
  destruct Hfacts as (Ht1 & Hnext1 & Hq0 & Hq1 & Hd1).
  split; [now rewrite Hw1, Hfire|].
  subst w'. rewrite (in_turn_call w1 r0 n) by assumption.
  destruct (handleHTTP_queue_frame r0 w1) as (Hq2 & Hnr2 & _ & Htr2 & _).
  rewrite H0 in Hq2. simpl attr_key in Hq2.
  destruct (workOutQueue_frame
              (set_ticks [] (taken r0 (exec (handleHTTP_queue r0) w1))))
    as (-> & -> & _ & _ & ->).
  unfold taken. run. rewrite Hnr2, Hnext1, Hq2, Htr2.
  rewrite data_events_app, data_events_data_outputs, Hd1. simpl.
  repeat split.
  rewrite lookup_delete_ne, lookup_insert_ne by congruence. exact Hq1.
Qed.

(** ** The namespaces of the constructor *)

Lemma xmlns_key_inj (p q : string) : xmlns_key p = xmlns_key q -> p = q.
Proof.
  unfold xmlns_key, truthy.
  destruct (String.eqb_spec p ""), (String.eqb_spec q ""); simpl;
    intros E; try congruence; try discriminate.
  now injection E.
Qed.

Lemma add_xmlns_insert (m : gmap string string) (p : string * string) :
  add_xmlns m p = <[xmlns_key (fst p) := snd p]> m.
Proof. unfold add_xmlns, xmlns_key. now destruct (truthy (Some p.1)). Qed.

Lemma fold_add_xmlns_other (l : list (string * string))
    (m : gmap string string) (k : string) :
  (forall p, p ∈ fst <$> l -> xmlns_key p <> k) ->
  fold_left add_xmlns l m !! k = m !! k.
Proof.
  revert m; induction l as [|[p v] l IH]; intros m Hk; [reflexivity|].
  simpl. rewrite IH.
  - rewrite add_xmlns_insert. apply lookup_insert_ne. apply Hk. left.
  - intros q Hq. apply Hk. now right.
Qed.

Lemma fold_add_xmlns_lookup (l : list (string * string))
    (m : gmap string string) (p v : string) :
  NoDup (fst <$> l) ->
  (p, v) ∈ l ->
  fold_left add_xmlns l m !! xmlns_key p = Some v.
Proof.
  revert m; induction l as [|[q u] l IH]; intros m Hnd Hin.
  - inversion Hin.
  - rewrite fmap_cons in Hnd. apply NoDup_cons in Hnd as [Hq Hnd]. simpl.
    apply elem_of_cons in Hin as [[= <- <-] | Hin].
    + rewrite fold_add_xmlns_other.
      * rewrite add_xmlns_insert. apply lookup_insert_eq.
      * intros q Hq' E. apply xmlns_key_inj in E. now subst.
    + now apply IH.
Qed.

(** X21. The constructor and [opts.xmlns]: each prefix of [opts.xmlns]
    gives the responses the attribute [xmlns:prefix] with its value, and
    the empty prefix gives [xmlns] its value in place of the BOSH
    namespace; a default that no prefix names stays; and [sid] is the
    session id, whatever [opts.xmlns] holds. *)
Theorem constructor_namespace_attrs (opts : Opts) (hat : string)
    (l : list (string * string)) :
  xmlns opts = Some l ->
  NoDup (fst <$> l) ->
  let xa := xmlnsAttrs (this (BOSHServerSession opts hat)) in
  (forall p v, (p, v) ∈ l -> xa !! xmlns_key p = Some v)
  /\ ("" ∉ fst <$> l -> xa !! "xmlns" = Some NS_HTTPBIND)
  /\ ("xmpp" ∉ fst <$> l -> xa !! "xmlns:xmpp" = Some "urn:xmpp:xbosh")
  /\ ("stream" ∉ fst <$> l ->
      xa !! "xmlns:stream" = Some "http://etherx.jabber.org/streams")
  /\ xa !! "sid" = Some (sid (this (BOSHServerSession opts hat))).
Proof.
  intros Hl Hnd xa.
  assert (Hxa : xa = <["sid" := js_or (opt_sid opts) hat]>
                       (fold_left add_xmlns l
                          (<["xmlns:stream" := "http://etherx.jabber.org/streams"]>
                             (<["xmlns:xmpp" := "urn:xmpp:xbosh"]>
                                (<["xmlns" := NS_HTTPBIND]> ∅))))).
  { subst xa. change (xmlnsAttrs (this (BOSHServerSession opts hat)))
      with (init_xmlnsAttrs opts (js_or (opt_sid opts) hat)).
    unfold init_xmlnsAttrs. now rewrite Hl. }
  assert (Hsid : forall p, xmlns_key p <> "sid").
  { intros p. unfold xmlns_key. destruct (truthy (Some p)); discriminate. }
  assert (Hdef : forall q,
    q ∉ fst <$> l -> forall p, p ∈ fst <$> l -> xmlns_key p <> xmlns_key q).
  { intros q Hq p Hp E. apply xmlns_key_inj in E. now subst. }
  rewrite Hxa. split; [|split; [|split; [|split]]].
  - intros p v Hin. rewrite lookup_insert_ne by (apply not_eq_sym, Hsid).
    now apply fold_add_xmlns_lookup.
  - intros Hq. rewrite lookup_insert_ne by discriminate.
    rewrite (fold_add_xmlns_other l _ "xmlns" (Hdef "" Hq)). reflexivity.
  - intros Hq. rewrite lookup_insert_ne by discriminate.
    rewrite (fold_add_xmlns_other l _ "xmlns:xmpp" (Hdef "xmpp" Hq)).
    reflexivity.
  - intros Hq. rewrite lookup_insert_ne by discriminate.
    rewrite (fold_add_xmlns_other l _ "xmlns:stream" (Hdef "stream" Hq)).
    reflexivity.
  - apply lookup_insert_eq.
Qed.

(** ** The delays of the timers *)

(** Closes a goal of [timers_ok] for a world made of [w] by insertions
    into and deletions from the timer table. *)
Ltac timers_goal Hw :=
  intros h' t'; run; rewrite ?lookup_insert, ?lookup_delete;
  repeat case_decide; try discriminate;
  try (intros [= <-]; reflexivity); try apply Hw.

Lemma workInQueue_timers_ok (w : World) :
  timers_ok w -> timers_ok (exec workInQueue w).
Proof.
  intros Hw.
  destruct (inQueue (this w) !! number_key (nextRid (this w))) as [opts|] eqn:Hq.
  - destruct (decide (attr_type (attrs (bodyEl opts)) = Some "terminate")) as [Ht|Ht].
    + rewrite (workInQueue_terminate w opts Hq Ht).
      intros h t Hh. cbn [timers set_trace set_timers] in Hh.
      apply clear_timers_Some in Hh. exact (Hw h t Hh).
    + rewrite (workInQueue_next w opts Hq Ht). exact Hw.
  - now rewrite exec_workInQueue_waiting.
Qed.

Lemma workOutQueue_timers_ok (w : World) :
  timers_ok w -> timers_ok (exec workOutQueue w).
Proof.
  intros Hw. unfold timers_ok, expected_delay in *. unfold workOutQueue. run.
  destruct ((length (stanzaQueue (this w)) <? 1)%nat
            && (0 <? length (outQueue (this w)))%nat); run; [exact Hw|].
  destruct (outQueue (this w)) as [|opts rest]; run; [exact Hw|].
  unfold maySetConnectionTimeout.
  destruct (optsTimer w !! oid opts) as [h|]; run;
    destruct rest; simpl; timers_goal Hw.
Qed.

Lemma handleHTTP_timers_ok (opts : Opts) (w : World) :
  timers_ok w -> timers_ok (exec (handleHTTP opts) w).
Proof.
  intros Hw. unfold timers_ok, expected_delay in *.
  unfold handleHTTP, handleHTTP_queue. run.
  destruct (inQueue (this w) !! attr_key (attr_rid (attrs (bodyEl opts))));
    run; [|destruct (js_lt _ _); run];
    try (destruct (connectionTimeout (this w)); run);
    timers_goal Hw.
Qed.

Lemma fire_timers_ok (h : nat) (w : World) :
  timers_ok w -> timers_ok (exec (fire h) w).
Proof.
  intros Hw. unfold timers_ok, expected_delay in *.
  unfold fire, run_callback. run.
  destruct (timers w !! h) as [[ms [opts|]]|]; cbn [callback]; run;
    [|timers_goal Hw..].
  unfold onReqTimeout. run.
  destruct (inQueue (this w) !! attr_key (attr_rid (attrs (bodyEl opts))));
    run; [timers_goal Hw|].
  destruct (outQueue (this w)
              !! find_rid (attr_rid (attrs (bodyEl opts))) (outQueue (this w)));
    run; timers_goal Hw.
Qed.

Lemma settle_timers_ok (w : World) : timers_ok w -> timers_ok (settle w).
Proof.
  induction (settle_drains w) as [|w w1 w2 Hs _ IH]; [auto|].
  intros Hw. apply IH. unfold tick_step in Hs.
  destruct (ticks w) as [|t ts]; [discriminate|]. injection Hs as <-.
  assert (Hw' : timers_ok (set_ticks ts w)) by exact Hw.
  destruct t; simpl; rewrite ?exec_bind;
    auto using workInQueue_timers_ok, workOutQueue_timers_ok.
Qed.

(** X22. The session sets timers of two delays only: every pending
    timer of a request has the delay of [wait] seconds, in
    milliseconds, and every pending session timeout that of 60
    seconds. *)
Theorem timers_have_their_delay (w : World) :
  reachable w ->
  forall h t, timers w !! h = Some t ->
    match callback t with
    | ReqTimer _ => delay t = js_mul (wait (this w)) (Some 1000)
    | ConnTimer => delay t = Some 60000
    end.
Proof.
  intros Hr.
  assert (Hok : timers_ok w).
  { induction Hr as [opts hat | w c _ IH].
    - apply settle_timers_ok. intros h t.
      rewrite (proj1 (BOSHServerSession_timers opts hat)).
      now intros [<- <-]%lookup_singleton_Some.
    - destruct c; unfold do_call, call; apply settle_timers_ok; try exact IH.
      + now apply handleHTTP_timers_ok.
      + now apply fire_timers_ok. }
  intros h t Hh. specialize (Hok h t Hh). unfold expected_delay in Hok.
  now destruct (callback t).
Qed.

End Proofs.

(** C5 fails as stated. With no response object held, [write] returns
    [false], and the payload it queued is waiting all the same. *)
Lemma write_false_with_backlog :
  ~ write_reports_backlog "<presence/>" session_idle.
Proof.
  intros [_ [_ Hb]].
  assert (E : eval (write "<presence/>") session_idle = true)
    by (apply Hb; vm_compute; discriminate).
  vm_compute in E. discriminate.
Qed.

(** C4 fails as stated. The stream header is an open tag, which does
    not parse: the response [workOutQueue] writes for the batch that
    holds it has no child for it. *)
Lemma workOutQueue_drops_stream_header :
  stanzaQueue (this session_header_written) = [stream_header]
  /\ outQueue (this session_header_written) = [first_request]
  /\ ~ delivers_whole_batch session_header_written.
Proof.
  split; [reflexivity | split; [reflexivity|]].
  intros (r & a & c & Htr & Hall).
  apply (f_equal (@last Output)) in Htr. rewrite last_snoc in Htr.
  vm_compute in Htr. injection Htr as _ _ <-.
  vm_compute in Hall. inversion Hall.
Qed.

(** C8 fails as stated. A request that arrives ahead of its turn is put
    in [inQueue], and [handleHTTP] clears the session timeout for it:
    [outQueue] is empty before and after, and where the timeout was
    armed, the only pending timer is that of the request. *)
Lemma handleHTTP_disarms_idle_timer :
  outQueue (this session_drained) = []
  /\ idle_timer_armed session_drained
  /\ outQueue (this session_waiting) = []
  /\ ~ idle_timer_armed session_waiting
  /\ timers session_waiting
     = {[ 3%nat := {| delay := Some 5000;
                      callback := ReqTimer (request 2 "4" []) |} ]}.
Proof.
  split; [reflexivity|]. split; [exists 2%nat; split; reflexivity|].
  split; [reflexivity|]. split; [|reflexivity].
  intros (h & Hh & _). vm_compute in Hh. discriminate.
Qed.

(** The session timeout armed by the constructor is not cleared when
    [workOutQueue] arms another: both go off, and the session emits
    [error] and [close] twice. *)
Lemma idle_timers_fire_twice :
  events (trace (call (fire 1%nat) (call (fire 0%nat) session_idle)))
  = events (trace session_idle)
    ++ [EvError "Session timeout"; EvClose; EvError "Session timeout"; EvClose].
Proof. reflexivity. Qed.

(** ** The theorems at sample sessions *)

Example parseInt_examples :
  parseInt (Some "42") = Some 42 /\ parseInt (Some " -7x") = Some (-7)
  /\ parseInt (Some "007") = Some 7 /\ parseInt (Some "abc") = NaN
  /\ parseInt None = NaN /\ parseInt (Some "") = NaN
  /\ parseInt_number (Some 120) = Some 120 /\ parseInt_number NaN = NaN.
Proof. repeat split; reflexivity. Qed.

(** The requests 4, 2, 3 arrive in this order at the session that waits
    for 2; and the request 4 alone leaves the events as they are. *)
Lemma requests_processed_in_order_witness :
  data_events (trace (arrive [request_c; request_a; request_b] session_made))
  = data_events (trace session_made) ++ ["<a/>"; "<b/>"; "<c/>"]
  /\ events (trace (call (handleHTTP request_c) session_made))
     = events (trace session_made).
Proof.
  destruct (@requests_processed_in_order sample_ltx) as [Hord Hbuf].
  split.
  - refine (proj2 (Hord session_made 2 request_a request_b request_c
                     [request_c; request_a; request_b] _ _ _ _ _ _ _ _ _)
              _ _ _).
    + reflexivity.
    + reflexivity.
    + reflexivity.
    + reflexivity.
    + intros i. reflexivity.
    + reflexivity.
    + reflexivity.
    + reflexivity.
    + apply Permutation_sym, perm_trans with [request_a; request_c; request_b];
        [apply perm_swap | apply perm_skip, perm_swap].
    + discriminate.
    + discriminate.
    + discriminate.
  - apply (Hbuf session_made request_c 2 4); [reflexivity..|lia|reflexivity].
Defined.

Lemma terminate_flushes_outQueue_witness :
  responses (trace (exec workInQueue session_terminating))
  = map (fun o => (res o,
                   xml_response
                     (<["type" := "terminate"]> (xmlnsAttrs (this session_made)))
                     []))
      [first_request; request 1 "2" []; terminate_request 2 "3"]
  /\ events (trace (exec workInQueue session_terminating))
     = events (trace session_terminating) ++ [EvEnd; EvClose]
  /\ outQueue (this (exec workInQueue session_terminating)) = []
  /\ timers (exec workInQueue session_terminating) !! 2%nat = None.
Proof.
  destruct (terminate_flushes_outQueue session_terminating
              (terminate_request 2 "3"))
    as (Htr & Hcl & Hq); [reflexivity..|].
  split; [now rewrite Htr|]. split; [now rewrite Htr|].
  split; [exact Hq|].
  apply (Hcl (terminate_request 2 "3")); [|reflexivity].
  apply elem_of_app. right. apply list_elem_of_singleton. reflexivity.
Defined.

Lemma handleHTTP_replaces_same_rid_witness :
  trace (exec (handleHTTP superseding_request) session_buffered)
  = trace session_buffered
    ++ [Write 1%nat
          {| status := 403;
             contentType := "text/plain";
             body := TextBody "Request replaced by same RID" |}]
  /\ inQueue (this (exec (handleHTTP superseding_request) session_buffered))
       !! "3"
     = Some superseding_request.
Proof.
  destruct (handleHTTP_replaces_same_rid session_buffered
              superseded_request superseding_request)
    as (Htr & _ & Hq); [reflexivity..|].
  split; [exact Htr | exact Hq].
Defined.

Lemma workOutQueue_batch_witness :
  stanzaQueue (this (exec workOutQueue session_writing)) = []
  /\ outQueue (this (exec workOutQueue session_writing)) = [request 1 "2" []]
  /\ responses (trace (exec workOutQueue session_writing))
     = [(0%nat, xml_response (xmlnsAttrs (this session_made)) ["<message/>"])].
Proof.
  destruct (workOutQueue_batch session_writing first_request [request 1 "2" []])
    as (Hsq & Hoq & _ & _ & Htr & _);
    [ intros E; vm_compute in E; discriminate | vm_compute; reflexivity |].
  split; [exact Hsq|]. split; [exact Hoq|]. now rewrite Htr.
Defined.

Lemma idle_timer_armed_and_fatal_witness :
  idle_timer_armed (exec workOutQueue session_last_held)
  /\ timers (exec (handleHTTP (request 2 "4" [])) session_drained) !! 2%nat
     = None
  /\ trace (exec (fire 2%nat) session_drained)
     = trace session_drained ++ [Emit (EvError "Session timeout"); Emit EvClose].
Proof.
  destruct (@idle_timer_armed_and_fatal sample_ltx) as (_ & Harm & Hclear & Hfire).
  split; [|split].
  - destruct (Harm session_last_held (request 1 "2" [])) as [_ Ha];
      [ intros E; vm_compute in E; discriminate
      | vm_compute; reflexivity
      | exact Ha ].
  - destruct (Hclear session_drained (request 2 "4" []) 2%nat) as (_ & Ht & _);
      [ vm_compute; reflexivity | vm_compute; lia | vm_compute; reflexivity |].
    exact Ht.
  - apply (Hfire session_drained 2%nat
             {| delay := Some 60000; callback := ConnTimer |});
      reflexivity.
Defined.

Lemma restart_sends_stream_header_witness :
  data_events (trace (exec workInQueue session_restarting))
  = data_events (trace session_restarting)
    ++ ["<stream:stream xmlns='jabber:client' xmlns:stream='http://etherx.jabber.org/streams'  to='example.com' version='1.0'>";
        "<bind/>"].
Proof.
  apply (restart_sends_stream_header session_restarting restart_request);
    reflexivity.
Defined.

Lemma superseded_timer_still_fires_witness :
  timers (exec (handleHTTP superseding_request) session_buffered) !! 1%nat
  = Some {| delay := Some 5000; callback := ReqTimer superseded_request |}.
Proof.
  apply (proj1 (@superseded_timer_still_fires sample_ltx) session_buffered
           superseded_request superseding_request 1%nat);
    try reflexivity; [vm_compute; lia | discriminate].
Defined.

(** ** More theorems at sample sessions *)

(** A hypothesis at a sample session is settled by evaluation. *)
Ltac at_sample :=
  first [ vm_compute; reflexivity
        | let E := fresh in intros E; vm_compute in E; discriminate ].

Lemma session_drained_reachable : reachable session_drained.
Proof.
  assert (E : session_drained
    = do_call (CallWrite "<b/>")
        (do_call (CallWrite "<a/>")
           (do_call (CallHandleHTTP (request 1 "2" []))
              (settle (BOSHServerSession first_request "s1")))))
    by (vm_compute; reflexivity).
  rewrite E. repeat apply reachable_call. apply reachable_new.
Qed.

Lemma nextTick_queue_runs_out_witness :
  run_ticks 5 session_restarting = settle session_restarting
  /\ ticks (run_ticks 5 session_restarting) = [].
Proof.
  apply (nextTick_queue_runs_out session_restarting 5).
  apply Nat.leb_le. vm_compute. reflexivity.
Defined.

Lemma handleHTTP_stale_request_witness :
  call (handleHTTP stale_request) session_made
  = set_this
      (set_outQueue (outQueue (this session_made) ++ [stale_request])
         (this session_made))
      session_made.
Proof.
  destruct (handleHTTP_stale_request session_made stale_request 1 2)
    as [_ Hc];
    [at_sample .. |].
  apply Hc. vm_compute. reflexivity.
Defined.


Lemma request_in_turn_is_held_witness :
  trace (call (handleHTTP request_a) session_made)
  = trace session_made ++ data_outputs (request_data request_a)
    ++ [Emit EvDrain]
  /\ outQueue (this (call (handleHTTP request_a) session_made))
     = outQueue (this session_made) ++ [request_a].
Proof.
  destruct (request_in_turn_is_held session_made request_a 2)
    as (Ht & Hq & _);
    [at_sample .. |].
  split; [exact Ht | exact Hq].
Defined.

Lemma fire_spurious_timeout_witness :
  exec (fire 2%nat) session_answered_early
  = set_optsTimer
      (delete (oid superseding_request) (optsTimer session_answered_early))
      (set_timers (delete 2%nat (timers session_answered_early))
         session_answered_early).
Proof.
  apply (fire_spurious_timeout session_answered_early 2%nat (Some 5000)
           superseding_request); try (vm_compute; reflexivity).
  assert (E : outQueue (this session_answered_early) = [first_request])
    by (vm_compute; reflexivity).
  rewrite E. repeat constructor. discriminate.
Defined.

Lemma write_flushes_to_oldest_witness :
  eval (write "<b/>") (call (write "<a/>") session_two_held) = true
  /\ outQueue (this (call (write "<b/>")
                        (call (write "<a/>") session_two_held))) = []
  /\ timers (call (write "<b/>") (call (write "<a/>") session_two_held))
       !! 1%nat = None.
Proof.
  destruct (write_flushes_to_oldest (call (write "<a/>") session_two_held)
              "<b/>" (request 1 "2" []) [])
    as (He & _ & _ & Hq & _ & Ht & _);
    [at_sample .. |].
  split; [exact He | split; [exact Hq|]].
  apply Ht; [vm_compute; reflexivity|].
  apply Nat.ltb_lt. vm_compute. reflexivity.
Defined.

Lemma write_without_slot_queues_witness :
  eval (write "<late/>") session_drained = false
  /\ call (write "<late/>") session_drained
     = set_this
         (set_stanzaQueue (stanzaQueue (this session_drained) ++ ["<late/>"])
            (this session_drained))
         session_drained.
Proof.
  destruct (write_without_slot_queues session_drained "<late/>")
    as (He & Hc);
    [at_sample .. |].
  split; [exact He | exact Hc].
Defined.

Lemma request_in_turn_takes_backlog_witness :
  trace (call (handleHTTP (request 2 "3" [])) session_backlog)
  = trace session_backlog ++ data_outputs (request_data (request 2 "3" []))
    ++ [Write (res (request 2 "3" []))
          (xml_response (xmlnsAttrs (this session_backlog))
             (omap ltx_parse (stanzaQueue (this session_backlog))))]
  /\ stanzaQueue (this (call (handleHTTP (request 2 "3" [])) session_backlog))
     = [].
Proof.
  destruct (request_in_turn_takes_backlog session_backlog (request 2 "3" []) 3)
    as (Ht & Hs & _);
    [at_sample .. |].
  split; [exact Ht | exact Hs].
Defined.

Lemma nextRid_only_advances_witness :
  exists k : nat,
    nextRid (this (do_call (CallHandleHTTP request_a) session_made))
    = Some (2 + Z.of_nat k).
Proof.
  apply (proj1 (nextRid_only_advances (CallHandleHTTP request_a) session_made)).
  vm_compute. reflexivity.
Defined.

Lemma responses_carry_session_attrs_witness :
  Forall (fun rr => session_response (this session_drained) (snd rr))
    (responses (trace session_drained)).
Proof.
  apply responses_carry_session_attrs, session_drained_reachable.
Defined.

Lemma connect_emitted_once_witness :
  exists rest,
    events (trace session_drained) = EvConnect :: rest /\ EvConnect ∉ rest.
Proof. apply connect_emitted_once, session_drained_reachable. Defined.

Lemma no_request_is_lost_witness :
  accounted (do_call (CallWrite "<message/>") session_made) first_request.
Proof.
  apply (proj2 (proj2 (@no_request_is_lost sample_ltx)));
    [vm_compute; reflexivity | reflexivity |].
  left. right.
  assert (E : outQueue (this session_made) = [first_request])
    by (vm_compute; reflexivity).
  rewrite E. apply list_elem_of_here.
Defined.

Lemma response_objects_conserved_witness :
  slots (do_call (CallHandleHTTP request_a) session_made)
  ≡ₚ arriving (CallHandleHTTP request_a) ++ slots session_made.
Proof.
  apply (response_objects_conserved (CallHandleHTTP request_a) session_made);
    vm_compute; reflexivity.
Defined.

Lemma one_response_per_object_witness :
  NoDup (slots (do_call (CallHandleHTTP request_b) session_two_held)).
Proof.
  assert (E : slots session_two_held = [0; 1]%nat) by (vm_compute; reflexivity).
  apply (proj1 (proj2 (@one_response_per_object sample_ltx))).
  - rewrite E. apply (bool_decide_unpack _). vm_compute. exact I.
  - intros r Hr%list_elem_of_singleton. subst r. rewrite E.
    apply (bool_decide_unpack _). vm_compute. exact I.
Defined.

Lemma first_request_is_processed_witness :
  trace (settle (BOSHServerSession first_request "s1"))
  = Emit EvConnect :: data_outputs (request_data first_request)
    ++ [Emit EvDrain]
  /\ outQueue (this (call (fire 0%nat)
                        (settle (BOSHServerSession first_request "s1"))))
     = [first_request].
Proof.
  destruct (first_request_is_processed first_request "s1" 1)
    as (Ht & _ & _ & _ & _ & _ & Hq);
    [reflexivity | reflexivity | discriminate |].
  split; [exact Ht | exact Hq].
Defined.

Lemma first_request_stalls_witness :
  trace (settle (BOSHServerSession padded_first_request "s1"))
  = [Emit EvConnect]
  /\ nextRid (this (settle (BOSHServerSession padded_first_request "s1")))
     = parseInt (attr_rid (attrs (bodyEl padded_first_request))).
Proof.
  destruct (first_request_stalls padded_first_request "s1")
    as (Ht & _ & _ & Hn & _); [discriminate|].
  split; [exact Ht | exact Hn].
Defined.

Lemma session_goes_on_after_terminate_witness :
  events (trace (call (handleHTTP request_b)
                   (call (handleHTTP (terminate_request 1 "2")) session_made)))
  = events (trace session_made)
    ++ (EvData <$> request_data (terminate_request 1 "2"))
    ++ [EvEnd; EvClose] ++ (EvData <$> request_data request_b) ++ [EvDrain].
Proof.
  destruct (session_goes_on_after_terminate session_made
              (terminate_request 1 "2") request_b 2)
    as (He & _);
    [at_sample .. |].
  exact He.
Defined.

Lemma timed_out_request_is_skipped_witness :
  data_events (trace (call (handleHTTP request_a)
                        (call (fire 1%nat) session_buffered)))
  = data_events (trace session_buffered) ++ request_data request_a.
Proof.
  destruct (timed_out_request_is_skipped session_buffered request_a
              superseded_request 2 1%nat (Some 5000))
    as (_ & Hd & _);
    [at_sample .. |].
  exact Hd.
Defined.

Lemma fire_request_timer_witness :
  trace (exec (fire 1%nat) session_buffered)
  = trace session_buffered
    ++ [Write (res superseded_request)
          (xml_response (xmlnsAttrs (this session_buffered)) [])].
Proof.
  destruct (fire_request_timer session_buffered 1%nat (Some 5000)
              superseded_request) as [Hin _]; [vm_compute; reflexivity|].
  destruct Hin as [Ht _]; [vm_compute; reflexivity|].
  exact Ht.
Defined.

Lemma constructor_namespace_attrs_witness :
  xmlnsAttrs (this (BOSHServerSession namespace_request "s1"))
    !! xmlns_key "foo"
  = Some "urn:example:foo"
  /\ xmlnsAttrs (this (BOSHServerSession namespace_request "s1"))
       !! xmlns_key ""
     = Some "urn:example:bind"
  /\ xmlnsAttrs (this (BOSHServerSession namespace_request "s1")) !! "sid"
     = Some (sid (this (BOSHServerSession namespace_request "s1"))).
Proof.
  destruct (constructor_namespace_attrs namespace_request "s1"
              [("", "urn:example:bind"); ("foo", "urn:example:foo")])
    as (Hp & _ & _ & _ & Hs); [reflexivity | |].
  - apply (bool_decide_unpack _). vm_compute. exact I.
  - split; [|split; [|exact Hs]].
    + apply (Hp "foo" "urn:example:foo").
      apply (bool_decide_unpack _). vm_compute. exact I.
    + apply (Hp "" "urn:example:bind").
      apply (bool_decide_unpack _). vm_compute. exact I.
Defined.

Lemma timers_have_their_delay_witness :
  match callback {| delay := Some 60000; callback := ConnTimer |} with
  | ReqTimer _ =>
      delay {| delay := Some 60000; callback := ConnTimer |}
      = js_mul (wait (this session_drained)) (Some 1000)
  | ConnTimer =>
      delay {| delay := Some 60000; callback := ConnTimer |} = Some 60000
  end.
Proof.
  apply (timers_have_their_delay session_drained session_drained_reachable
           2%nat {| delay := Some 60000; callback := ConnTimer |}).
  vm_compute. reflexivity.
Defined.
